(** * NexusCMS API gateway: discovery cache, round-robin balancer

    Shallow embedding of [api-gateway/src/index.ts]: the in-memory service
    cache and its refresh, the round-robin instance selection, the JWT gate
    and the reverse-proxy middleware built by [createServiceProxy]. The
    auth service of the same source file follows in [Module Auth]: its
    registration with the registry, its middlewares and its user routes.

    JavaScript values are modelled as follows.
    - [Record<string, T>] objects used as dictionaries are [gmap string T];
      a missing key is [undefined].
    - [Date.now()] readings are integers ([Z], milliseconds).
    - The round-robin counters are JavaScript numbers holding non-negative
      integers; they are exact up to [2^53], where [++] stops changing the
      value (see [js_incr]).
    - The registry reply, the clock, the random fragment of a generated
      correlation id and the upstream's behaviour are inputs of the
      functions that read them.

    - Node's URL parser, token verification and [JSON.stringify] are
      libraries whose results are taken as given (see [Externals]); what
      the proxy library makes of the request is modelled after
      http-proxy-middleware 2 and http-proxy 1.18, which the gateway's
      [package.json] asks for.

    Logging, the rate limiter, CORS and the [/health] endpoint are left
    out; of the JSON body parser only its reading of the payload is kept
    (see [Request]). The service registry itself is a separate service;
    the gateway sees it through the replies to its fetches. *)

From stdpp Require Import gmap strings list pretty.
From Stdlib Require Import ZArith NArith Lia Ascii Sorted.

Module Gateway.

(** ** Configuration *)

Definition SERVICE_CACHE_TTL : Z := 60000.

(** ** Data model *)

(** [interface ServiceInfo]. The optional [metadata] record is kept as an
    association list. *)
Record ServiceInfo := {
  id : string;
  name : string;
  host : string;
  port : Z;
  url : string;
  status : string;
  lastHeartbeat : Z;
  metadata : option (list (string * string))
}.

(** The module-level mutable variables [serviceCache], [lastCacheUpdate]
    and [serviceSelectors]. *)
Record State := {
  serviceCache : gmap string (list ServiceInfo);
  lastCacheUpdate : Z;
  serviceSelectors : gmap string N
}.

(** [let serviceCache = {}; let lastCacheUpdate = 0; const serviceSelectors = {}] *)
Definition initial : State :=
  {| serviceCache := ∅; lastCacheUpdate := 0; serviceSelectors := ∅ |}.

(** ** Plain objects as dictionaries

    [groupedServices], [serviceCache] and [serviceSelectors] are plain
    objects, so a read of one of the member names of [Object.prototype] sees
    the inherited member instead of [undefined]. *)
Definition Object_prototype_keys : list string :=
  [ "constructor"; "__proto__"; "hasOwnProperty"; "isPrototypeOf";
    "propertyIsEnumerable"; "toLocaleString"; "toString"; "valueOf";
    "__defineGetter__"; "__defineSetter__"; "__lookupGetter__";
    "__lookupSetter__" ].

Definition inherited (key : string) : bool :=
  bool_decide (key ∈ Object_prototype_keys).

(** ** Cache refresh *)

(** One iteration of the grouping loop of [refreshServiceCache]:
<<
    if (!groupedServices[service.name]) groupedServices[service.name] = [];
    groupedServices[service.name].push(service);
>>
    For an inherited key the test is false (every inherited member is
    truthy) and [.push] is not a function: the loop throws, which is [None]
    here. *)
Definition group_step (grouped : gmap string (list ServiceInfo))
    (service : ServiceInfo) : option (gmap string (list ServiceInfo)) :=
  if inherited (name service) then None
  else
    let grouped1 :=
      match grouped !! name service with
      | None => <[name service := []]> grouped
      | Some _ => grouped
      end in
    Some (alter (λ l, l ++ [service]) (name service) grouped1).

Fixpoint group_from (grouped : gmap string (list ServiceInfo))
    (services : list ServiceInfo) : option (gmap string (list ServiceInfo)) :=
  match services with
  | [] => Some grouped
  | service :: rest =>
    match group_step grouped service with
    | None => None
    | Some grouped' => group_from grouped' rest
    end
  end.

Definition groupServices (services : list ServiceInfo) :
    option (gmap string (list ServiceInfo)) :=
  group_from ∅ services.

(** What [await axios.get(`${SERVICE_REGISTRY_URL}/services`)] gives: the
    list in [response.data], or a rejected promise. *)
Inductive RegistryReply :=
  | RegistryData (services : list ServiceInfo)
  | RegistryFailure.

(** The two assignments that end the [try] block of [refreshServiceCache]. *)
Definition cacheSwap (st : State) (now : Z)
    (grouped : gmap string (list ServiceInfo)) : State :=
  {| serviceCache := grouped;
     lastCacheUpdate := now;
     serviceSelectors := serviceSelectors st |}.

(** The part of [refreshServiceCache] that runs once the fetch has settled:
    the grouping loop and the two assignments, or the [catch] block, which
    only logs. A rejected promise ends in [catch] and is
    [RegistryFailure]. [RegistryData] is a payload of the declared type
    [ServiceInfo[]], which is what the registry's [GET /services] replies;
    a payload of another shape is outside the embedding (the loop iterates
    a string character by character, and throws on an object). *)
Definition refreshSettle (st : State) (now : Z) (reply : RegistryReply)
    : State :=
  match reply with
  | RegistryFailure => st
  | RegistryData services =>
    match groupServices services with
    | None => st
    | Some grouped => cacheSwap st now grouped
    end
  end.

(** [refreshServiceCache()], for the clock reading [now] taken at its entry
    and the registry's reply: nothing is fetched while the cache is younger
    than the TTL. *)
Definition refreshServiceCache (st : State) (now : Z) (reply : RegistryReply)
    : State :=
  if (now - lastCacheUpdate st <? SERVICE_CACHE_TTL)%Z then st
  else refreshSettle st now reply.

(** ** Round-robin selection *)

(** [n++] on a JavaScript number holding a non-negative integer: exact
    below [2^53]; [2^53 + 1] is not representable and rounds back to
    [2^53]. *)
Definition js_incr (n : N) : N :=
  if (n <? 2 ^ 53)%N then (n + 1)%N else n.

Definition setSelector (st : State) (serviceName : string) (n : N) : State :=
  {| serviceCache := serviceCache st;
     lastCacheUpdate := lastCacheUpdate st;
     serviceSelectors := <[serviceName := n]> (serviceSelectors st) |}.

(** [getServiceInstance(serviceName)]; [None] is the [null] result. The
    callers pass the literals given to [createServiceProxy]; the embedding
    covers service names that are not members of [Object.prototype]. *)
Definition getServiceInstance (st : State) (serviceName : string)
    : option ServiceInfo * State :=
  let services := default [] (serviceCache st !! serviceName) in
  if (length services =? 0)%nat then (None, st)
  else
    let selector := default 0%N (serviceSelectors st !! serviceName) in
    let serviceIndex := (selector mod N.of_nat (length services))%N in
    (services !! N.to_nat serviceIndex,
     setSelector st serviceName (js_incr selector)).

(** [n] consecutive calls of [getServiceInstance(serviceName)]. *)
Fixpoint selectMany (n : nat) (st : State) (serviceName : string)
    : list (option ServiceInfo) * State :=
  match n with
  | O => ([], st)
  | S n' =>
    let '(r, st1) := getServiceInstance st serviceName in
    let '(rs, st2) := selectMany n' st1 serviceName in
    (r :: rs, st2)
  end.


(** ** Strings *)

(** [s.split(sep)] for a one-character separator. *)
Fixpoint split_on (sep : ascii) (s : string) : list string :=
  match s with
  | EmptyString => [EmptyString]
  | String c rest =>
    if bool_decide (c = sep) then EmptyString :: split_on sep rest
    else
      match split_on sep rest with
      | first :: others => String c first :: others
      | [] => [String c EmptyString]
      end
  end.

(** [strip_prefix p s] is [Some rest] when [s = p ++ rest]. *)
Fixpoint strip_prefix (p s : string) : option string :=
  match p, s with
  | EmptyString, _ => Some s
  | String a p', String b s' =>
    if bool_decide (a = b) then strip_prefix p' s' else None
  | String _ _, EmptyString => None
  end.

(** Characters with a special meaning in a regular expression pattern. *)
Definition regexp_special : list ascii :=
  [ "\"; "^"; "$"; "."; "|"; "?"; "*"; "+"; "("; ")"; "["; "]"; "{"; "}" ]%char.

Fixpoint regexp_literal (s : string) : bool :=
  match s with
  | EmptyString => true
  | String c rest => negb (bool_decide (c ∈ regexp_special)) && regexp_literal rest
  end.

(** [s.replace(p, r)] for a string pattern: the first occurrence of [p]
    is replaced. *)
Fixpoint replace_first (p r s : string) : string :=
  match strip_prefix p s with
  | Some rest => r +:+ rest
  | None =>
    match s with
    | EmptyString => EmptyString
    | String c s' => String c (replace_first p r s')
    end
  end.


(** [s.replace(/\/+/g, '/')]: every run of slashes becomes one slash. *)
Fixpoint squeeze (s : string) : string :=
  match s with
  | EmptyString => EmptyString
  | String c rest =>
    if bool_decide (c = "/"%char)
    then match squeeze rest with
         | String "/" _ as r => r
         | r => String c r
         end
    else String c (squeeze rest)
  end.

(** Lower case of the letters A to Z, as a case-insensitive pattern over
    ASCII letters needs it. *)
Definition lower_char (c : ascii) : ascii :=
  let n := nat_of_ascii c in
  if (65 <=? n)%nat && (n <=? 90)%nat then ascii_of_nat (n + 32) else c.

Fixpoint lower (s : string) : string :=
  match s with
  | EmptyString => EmptyString
  | String c rest => String (lower_char c) (lower rest)
  end.

(** The characters [\s] matches among those a header value can hold. *)
Definition is_space (c : ascii) : bool :=
  bool_decide (nat_of_ascii c ∈ [9; 10; 11; 12; 13; 32; 160]%nat).

Fixpoint trim_start (s : string) : string :=
  match s with
  | EmptyString => EmptyString
  | String c rest => if is_space c then trim_start rest else s
  end.

Fixpoint trim_end (s : string) : string :=
  match s with
  | EmptyString => EmptyString
  | String c rest =>
    match trim_end rest with
    | EmptyString => if is_space c then EmptyString else String c EmptyString
    | r => String c r
    end
  end.

Definition trim (s : string) : string := trim_end (trim_start s).

(** No space character in the string. *)
Fixpoint spaceless (s : string) : bool :=
  match s with
  | EmptyString => true
  | String c rest => negb (bool_decide (c = " "%char)) && spaceless rest
  end.

(** Only decimal digits in the string. *)
Definition is_digit (c : ascii) : bool :=
  bool_decide (c ∈ ["0"; "1"; "2"; "3"; "4"; "5"; "6"; "7"; "8"; "9"]%char).

Fixpoint digits (s : string) : bool :=
  match s with
  | EmptyString => true
  | String c rest => is_digit c && digits rest
  end.

(** ** Requests and replies *)

(** The decoded token payload that ends up in [req.user]; the proxy reads
    [user.id] and [user.roles] (which may be missing). *)
Record Principal := {
  user_id : string;
  user_roles : option (list string)
}.

(** The parts of [express.Request] the gateway reads, as the request
    reaches a route. Header names are the lower-cased ones of
    [req.headers]; [path] is the URL the proxy library hands to
    [pathRewrite] (the original URL, mount path and query included);
    [body] is the payload the caller sent. [_body] is the flag of that name
    which the body parser of [app.use(json())] sets when it reads the
    payload off the request stream, as it does for a request with a JSON
    content type and a payload; nothing is then left on the stream. *)
Record Request := {
  method : string;
  path : string;
  headers : gmap string string;
  body : string;
  _body : bool;
  user : option Principal
}.

(** [res.status(status).json({ error })]. *)
Record JsonError := {
  statusCode : Z;
  error : string
}.

(** What Node's [url.parse] gives for a string, as far as the proxy
    library reads it: [host] (host name and port, lower-cased, without the
    user information) and [path] (path and query); [None] is [null]. *)
Record Url := {
  urlHost : option string;
  urlPath : option string
}.

(** What the libraries compute: token verification against [JWT_SECRET] at
    the current time ([None] when [jwt.verify] throws), [JSON.stringify]
    on a list of role names, and [url.parse]. *)
Class Externals := {
  jwt_verify : string → option Principal;
  JSON_stringify : list string → string;
  url_parse : string → Url
}.

(** ** Authentication middleware *)

Inductive AuthResult :=
  | AuthRejected (r : JsonError)
  | AuthNext (req : Request).

Definition setUser (req : Request) (decoded : Principal) : Request :=
  {| method := method req; path := path req; headers := headers req;
     body := body req; _body := _body req; user := Some decoded |}.

(** [!x] for a value that is a string or [undefined]. *)
Definition falsy (x : option string) : bool :=
  match x with
  | None => true
  | Some s => bool_decide (s = "")
  end.

(** [authenticateJWT(req, res, next)]. *)
Definition authenticateJWT `{Externals} (req : Request) : AuthResult :=
  let authHeader := headers req !! "authorization" in
  if falsy authHeader then
    AuthRejected {| statusCode := 401; error := "Authorization header missing" |}
  else
    let token := split_on " "%char (default "" authHeader) !! 1%nat in
    if falsy token then
      AuthRejected {| statusCode := 401; error := "Token not provided" |}
    else
      match jwt_verify (default "" token) with
      | Some decoded => AuthNext (setUser req decoded)
      | None =>
        AuthRejected {| statusCode := 403; error := "Invalid or expired token" |}
      end.

(** ** Reverse proxy *)

(** The request the proxy sends upstream: to the host and port of
    [target], with the request line [proxyMethod proxyPath]. *)
Record ProxyReq := {
  target : string;
  proxyPath : string;
  proxyMethod : string;
  proxyHeaders : gmap string string;
  proxyBody : string
}.

(** The [pathRewrite] option:
<<
    const newPath = path.replace(new RegExp(`^/api/${serviceName}`), '');
    return newPath || '/';
>>
    for a [serviceName] without regular-expression metacharacters, where the
    pattern matches exactly the strings that start with [/api/serviceName]. *)
Definition pathRewrite (serviceName : string) (path : string) : string :=
  let newPath := default path (strip_prefix ("/api/" +:+ serviceName) path) in
  if bool_decide (newPath = "") then "/" else newPath.

(** [`req-${Date.now()}-${Math.random().toString(36).substring(2, 10)}`],
    from the clock reading and the base-36 rendering of the random number. *)
Definition generateCorrelationId (now : Z) (random36 : string) : string :=
  "req-" +:+ pretty now +:+ "-" +:+ String.substring 2 8 random36.

(** [req.headers['x-correlation-id'] || generated] *)
Definition correlationId (req : Request) (now : Z) (random36 : string) : string :=
  let inbound := headers req !! "x-correlation-id" in
  if falsy inbound then generateCorrelationId now random36
  else default "" inbound.

(** The [onProxyReq] hook, as a function on the outgoing header set. *)
Definition onProxyReq `{Externals} (outgoing : gmap string string)
    (req : Request) (now : Z) (random36 : string) : gmap string string :=
  let h1 := <["x-correlation-id" := correlationId req now random36]> outgoing in
  match user req with
  | Some u =>
    <["x-user-roles" := JSON_stringify (default [] (user_roles u))]>
      (<["x-user-id" := user_id u]> h1)
  | None => h1
  end.

(** *** What the proxy library does with the options

    http-proxy's [urlJoin], which puts the path of the target in front of
    the path of the request:
<<
    lastSegs = last.split('?'); args[lastIndex] = lastSegs.shift();
    retSegs = [ args.filter(Boolean).join('/').replace(/\/+/g, '/')
                    .replace('http:/', 'http://').replace('https:/', 'https://') ];
    retSegs.push.apply(retSegs, lastSegs);
    return retSegs.join('?')
>>
*)
Definition urlJoin (targetPath outgoingPath : string) : string :=
  match split_on "?"%char outgoingPath with
  | [] => EmptyString
  | first :: query =>
    let joined :=
      String.concat "/" (filter (λ a, a ≠ "") [targetPath; first]) in
    String.concat "?"
      (replace_first "https:/" "https://"
         (replace_first "http:/" "http://" (squeeze joined)) :: query)
  end.


(** http-proxy's test [/(^|,)\s*upgrade\s*($|,)/i] on the [connection]
    header: one of its comma-separated items is the word [upgrade]. *)
Definition asksUpgrade (connection : option string) : bool :=
  match connection with
  | None => false
  | Some v =>
    existsb (λ item, bool_decide (lower (trim item) = "upgrade"))
      (split_on ","%char v)
  end.

(** http-proxy's pass [deleteLength]:
<<
    if ((req.method === 'DELETE' || req.method === 'OPTIONS')
        && !req.headers['content-length']) {
      req.headers['content-length'] = '0';
      delete req.headers['transfer-encoding'];
    }
>>
*)
Definition deleteLength (req : Request) : gmap string string :=
  if bool_decide (method req = "DELETE" ∨ method req = "OPTIONS")
     && falsy (headers req !! "content-length")
  then delete "transfer-encoding" (<["content-length" := "0"]> (headers req))
  else headers req.

(** The headers http-proxy's [setupOutgoing] gives the outgoing request:
    those of the incoming one, [connection: close] unless the incoming
    value asks for an upgrade (no agent is configured), and, for
    [changeOrigin: true], the [host] of the parsed target (for a target
    that is an absolute http or https URL, which the embedding covers, the
    parsed host carries the port whenever the URL names one, and the
    library adds nothing to it). *)
Definition setupOutgoing `{Externals} (target : string)
    (incoming : gmap string string) : gmap string string :=
  let hs :=
    if asksUpgrade (incoming !! "connection") then incoming
    else <["connection" := "close"]> incoming in
  <["host" := default "" (urlHost (url_parse target))]> hs.

(** The outgoing request built by the proxy for the options
    [target: serviceInstance.url], [changeOrigin: true], [pathRewrite]
    and [onProxyReq].
    - The path is the target's own path joined with the path of the
      rewritten URL.
    - The library raises the [proxyReq] event, and so runs [onProxyReq],
      only for an outgoing request that has no [expect] header: Node sends
      the headers of a request with that header at once, and they can no
      longer be set.
    - The body is what is left on the request stream, which the library
      pipes into the outgoing request. *)
Definition proxyRequest `{Externals} (serviceName : string)
    (serviceInstance : ServiceInfo) (req : Request) (now : Z)
    (random36 : string) : ProxyReq :=
  let outgoing := setupOutgoing (url serviceInstance) (deleteLength req) in
  {| target := url serviceInstance;
     proxyPath :=
       urlJoin (default "" (urlPath (url_parse (url serviceInstance))))
               (default "" (urlPath (url_parse
                                       (pathRewrite serviceName (path req)))));
     proxyMethod := method req;
     proxyHeaders :=
       if falsy (outgoing !! "expect")
       then onProxyReq outgoing req now random36
       else outgoing;
     proxyBody := if _body req then "" else body req |}.

(** What happens to the outgoing request: the upstream answers, or the
    transport fails (connection refused or reset, socket timeout). *)
Inductive Upstream :=
  | UpstreamResponse (status : Z) (responseHeaders : gmap string string)
      (payload : string)
  | TransportError (code : string).

(** What the caller of the gateway receives: a JSON error the gateway
    writes itself, or the upstream's response to the outgoing request
    [out], which the proxy library relays. *)
Inductive Outcome :=
  | Answered (r : JsonError)
  | Relayed (out : ProxyReq) (status : Z)
      (responseHeaders : gmap string string) (payload : string).


(** The [onError] option. *)
Definition onError (serviceName : string) (code : string) : JsonError :=
  {| statusCode := 500; error := "Service communication error" |}.

(** Everything a run of the middleware reads from outside: the clock at the
    handler's staleness test, the clock and the registry's reply inside
    [refreshServiceCache], the clock and random number read by
    [onProxyReq], and the upstream's behaviour. *)
Record Env := {
  clockHandler : Z;
  clockRefresh : Z;
  registry : RegistryReply;
  clockProxy : Z;
  random36 : string;
  upstream : ProxyReq → Upstream
}.

(** The staleness test of the middleware and the refresh it awaits. *)
Definition refreshIfStale (st : State) (env : Env) : State :=
  if (clockHandler env - lastCacheUpdate st >=? SERVICE_CACHE_TTL)%Z
  then refreshServiceCache st (clockRefresh env) (registry env)
  else st.

Definition unavailable (serviceName : string) : JsonError :=
  {| statusCode := 503;
     error := "Service " +:+ serviceName +:+ " is not available" |}.

(** The [catch] block of the middleware. *)
Definition gatewayError : JsonError :=
  {| statusCode := 500; error := "Gateway error" |}.

(** The middleware from [getServiceInstance] on, run on the state [st1]
    left by the staleness test and the awaited refresh.
    [createProxyMiddleware] throws when its [target] is empty, which the
    [catch] block answers. A transport error reaches [onError]; the
    upstream's own response is piped back. *)
Definition forward `{Externals} (serviceName : string)
    (st1 : State) (env : Env) (req : Request) : Outcome * State :=
  match getServiceInstance st1 serviceName with
  | (None, st2) => (Answered (unavailable serviceName), st2)
  | (Some serviceInstance, st2) =>
    if bool_decide (url serviceInstance = "") then (Answered gatewayError, st2)
    else
      let out := proxyRequest serviceName serviceInstance req
                   (clockProxy env) (random36 env) in
      match upstream env out with
      | UpstreamResponse status responseHeaders payload =>
        (Relayed out status responseHeaders payload, st2)
      | TransportError code => (Answered (onError serviceName code), st2)
      end
  end.

(** The middleware returned by [createServiceProxy(serviceName)]:
<<
    if (Date.now() - lastCacheUpdate >= SERVICE_CACHE_TTL) {
      await refreshServiceCache();
    }
    const serviceInstance = getServiceInstance(serviceName);
    if (!serviceInstance) { ... return res.status(503).json(...) }
    const proxy = createProxyMiddleware({ ... });
    return proxy(req, res, next);
>>
*)
Definition createServiceProxy `{Externals} (serviceName : string)
    (st : State) (env : Env) (req : Request) : Outcome * State :=
  forward serviceName (refreshIfStale st env) env req.

(** A route mounted as [app.use(prefix, authenticateJWT, createServiceProxy(name))]. *)
Definition protectedRoute `{Externals} (serviceName : string)
    (st : State) (env : Env) (req : Request) : Outcome * State :=
  match authenticateJWT req with
  | AuthRejected r => (Answered r, st)
  | AuthNext req' => createServiceProxy serviceName st env req'
  end.

(** The proxied routes, in the order they are mounted:
<<
    app.use('/api/auth', createServiceProxy('auth-service'));
    app.use('/api/content/admin', authenticateJWT, createServiceProxy('content-service'));
    app.use('/api/content', createServiceProxy('content-service'));
    app.use('/admin', authenticateJWT, createServiceProxy('frontend'));
>>
*)
Record Route := {
  mount : string;
  guarded : bool;
  service : string
}.

Definition routes : list Route :=
  [ {| mount := "/api/auth"; guarded := false; service := "auth-service" |};
    {| mount := "/api/content/admin"; guarded := true; service := "content-service" |};
    {| mount := "/api/content"; guarded := false; service := "content-service" |};
    {| mount := "/admin"; guarded := true; service := "frontend" |} ].

Definition handle `{Externals} (r : Route) (st : State) (env : Env)
    (req : Request) : Outcome * State :=
  if guarded r then protectedRoute (service r) st env req
  else createServiceProxy (service r) st env req.

(** The public listing of [GET /api/services]: per name, the number of
    cached instances and whether one of them is active. *)
Definition publicServices (st : State) : list (string * nat * string) :=
  (λ '(n, l), (n, length l,
     if existsb (λ s, bool_decide (status s = "active")) l
     then "active" else "down"))
  <$> map_to_list (serviceCache st).


(** ** The gateway as a state machine

    What changes the state after start-up: a run of [refreshServiceCache]
    (the call at module load and the [setInterval] timer), and a request
    reaching one of the proxy middlewares. Each event is taken as a whole:
    the fetch it awaits settles before the next event begins. Runs that
    overlap are the subject of [act] further down. *)
Inductive Event :=
  | Refresh (now : Z) (reply : RegistryReply)
  | Incoming (serviceName : string) (env : Env) (req : Request).

Definition step `{Externals} (st : State) (ev : Event)
    : option Outcome * State :=
  match ev with
  | Refresh now reply => (None, refreshServiceCache st now reply)
  | Incoming serviceName env req =>
    let '(o, st') := createServiceProxy serviceName st env req in (Some o, st')
  end.

Fixpoint run `{Externals} (st : State) (events : list Event)
    : list (option Outcome) * State :=
  match events with
  | [] => ([], st)
  | ev :: rest =>
    let '(o, st1) := step st ev in
    let '(os, st2) := run st1 rest in
    (o :: os, st2)
  end.

Definition failed (reply : RegistryReply) : bool :=
  match reply with
  | RegistryFailure => true
  | RegistryData _ => false
  end.

(** An event whose registry fetch fails (for a request: to a service name
    the embedding covers). *)
Definition fetchFails (ev : Event) : bool :=
  match ev with
  | Refresh _ reply => failed reply
  | Incoming serviceName env _ =>
    failed (registry env) && negb (inherited serviceName)
  end.

(** What a request is answered while no instance can be selected. *)
Definition coldAnswer (ev : Event) : option Outcome :=
  match ev with
  | Refresh _ _ => None
  | Incoming serviceName _ _ => Some (Answered (unavailable serviceName))
  end.

(** The group a name has in a registry listing: the listed instances of
    that name, in listed order; no property at all for a name that is not
    listed. *)
Definition groupOf (services : list ServiceInfo) (serviceName : string)
    : option (list ServiceInfo) :=
  match filter (λ s, name s = serviceName) services with
  | [] => None
  | l => Some l
  end.

(** The same run of the middleware against another registry reply. *)
Definition withRegistry (env : Env) (reply : RegistryReply) : Env :=
  {| clockHandler := clockHandler env; clockRefresh := clockRefresh env;
     registry := reply; clockProxy := clockProxy env;
     random36 := random36 env; upstream := upstream env |}.

(** ** Sample data *)

Definition instance (i n u s : string) : ServiceInfo :=
  {| id := i; name := n; host := "10.0.0.1"; port := 3003; url := u;
     status := s; lastHeartbeat := 0; metadata := None |}.

Definition instA : ServiceInfo :=
  instance "A" "content-service" "http://10.0.0.1:3003" "active".
Definition instB : ServiceInfo :=
  instance "B" "content-service" "http://10.0.0.2:3003" "active".
Definition instC : ServiceInfo :=
  instance "C" "content-service" "http://10.0.0.3:3003" "active".
Definition staleB : ServiceInfo :=
  instance "B" "content-service" "http://10.0.0.2:3003" "stale".

(** A request for the content service as it reaches the route mounted at
    [/api/content]. *)
Definition sampleRequest (hs : list (string * string)) : Request :=
  {| method := "GET"; path := "/api/content/entries";
     headers := list_to_map hs; body := ""; _body := false; user := None |}.



(** A stand-in for [url.parse], for strings of the two forms
    [scheme://user@host:port/path] (user and port optional) and [/path]. *)
Fixpoint until_slash (s : string) : string :=
  match s with
  | EmptyString => EmptyString
  | String c rest =>
    if bool_decide (c = "/"%char) then EmptyString else String c (until_slash rest)
  end.

Fixpoint from_slash (s : string) : string :=
  match s with
  | EmptyString => EmptyString
  | String c rest => if bool_decide (c = "/"%char) then s else from_slash rest
  end.

Fixpoint after_scheme (s : string) : option string :=
  match s with
  | EmptyString => None
  | String c rest =>
    match strip_prefix "://" s with
    | Some r => Some r
    | None => after_scheme rest
    end
  end.

Definition sample_parse (u : string) : Url :=
  match after_scheme u with
  | Some authority_path =>
    {| urlHost :=
         Some (lower (default "" (last (split_on "@"%char
                                          (until_slash authority_path)))));
       urlPath := Some (if bool_decide (from_slash authority_path = "")
                        then "/" else from_slash authority_path) |}
  | None =>
    {| urlHost := None;
       urlPath := if bool_decide (u = "") then None else Some u |}
  end.

(** A stand-in for the libraries: one token verifies. *)
Definition sampleExternals : Externals :=
  {| jwt_verify := λ token,
       if bool_decide (token = "good")
       then Some {| user_id := "u1"; user_roles := Some ["admin"; "editor"] |}
       else None;
     JSON_stringify := λ roles,
       "[" +:+ String.concat ","
                 ((λ r, String "034" (r +:+ String "034" "")) <$> roles)
           +:+ "]";
     url_parse := sample_parse |}.

(** An upstream that answers 200 with a body and no header of interest. *)
Definition ok200 : Upstream := UpstreamResponse 200 ∅ "ok".

Definition sampleEnv (now : Z) (reply : RegistryReply) (up : Upstream) : Env :=
  {| clockHandler := now; clockRefresh := now; registry := reply;
     clockProxy := now; random36 := "0.4fzyo82mvyr";
     upstream := λ _, up |}.


(** ** The rest of the gateway *)

(** The handler of [GET /api/services]: it awaits [refreshServiceCache()]
    (which fetches only when the cache is older than the TTL) and answers
    with the listing of the cache. The entries are those of
    [Object.keys(serviceCache)]; their order is not modelled. *)
Definition apiServices (st : State) (now : Z) (reply : RegistryReply)
    : list (string * nat * string) * State :=
  let st' := refreshServiceCache st now reply in
  (publicServices st', st').

(** What the grouping loop gives every cache it builds: a name that has an
    entry has at least one instance, and every instance sits under its own
    name. *)
Definition groupedByName (st : State) : Prop :=
  ∀ n l, serviceCache st !! n = Some l →
         l ≠ [] ∧ ∀ s, s ∈ l → name s = n.

(** ** Overlapping runs of [refreshServiceCache]

    A run of [refreshServiceCache] is suspended at
    [await axios.get(...)], between its reading of the clock and its two
    assignments, and the function is called at module load, by the
    interval timer, by [GET /api/services] and by the proxy middlewares:
    a run can begin while the fetch of another is in flight, and the
    fetches can settle in any order. [step] and [run] take each run as a
    whole, which is the schedule where every fetch settles before anything
    else happens. Here a run is cut at its [await]: [inFlight] holds the
    clock readings of the runs whose fetch has not settled, in the order
    they began. *)
Record Running := {
  current : State;
  inFlight : list Z
}.

(** - [Begin now]: a call of [refreshServiceCache] reads the clock and
      returns at once when the cache is younger than the TTL; otherwise it
      issues the fetch.
    - [Settle k reply]: the fetch of the [k]-th run in flight settles and
      the run goes on to its end with the clock reading it took at its
      beginning.
    - [Select serviceName]: a proxy middleware calls [getServiceInstance]. *)
Inductive Action :=
  | Begin (now : Z)
  | Settle (k : nat) (reply : RegistryReply)
  | Select (serviceName : string).

Definition act (r : Running) (a : Action) : Running :=
  match a with
  | Begin now =>
    if (now - lastCacheUpdate (current r) <? SERVICE_CACHE_TTL)%Z then r
    else {| current := current r; inFlight := inFlight r ++ [now] |}
  | Settle k reply =>
    match inFlight r !! k with
    | None => r
    | Some now =>
      {| current := refreshSettle (current r) now reply;
         inFlight := delete k (inFlight r) |}
    end
  | Select serviceName =>
    {| current := (getServiceInstance (current r) serviceName).2;
       inFlight := inFlight r |}
  end.

Definition acts (r : Running) (l : list Action) : Running := foldl act r l.

(** Nothing in flight. *)
Definition settled (st : State) : Running :=
  {| current := st; inFlight := [] |}.

(** The fetches settle in the order they were issued. *)
Definition inOrder (a : Action) : bool :=
  match a with
  | Settle k _ => bool_decide (k = 0%nat)
  | _ => true
  end.

(** No fetch that settles has succeeded. *)
Definition settlesFail (a : Action) : bool :=
  match a with
  | Settle _ reply => failed reply
  | _ => true
  end.

(** The clock readings of the runs never go back, starting from [last]. *)
Fixpoint clockSteady (last : Z) (l : list Action) : bool :=
  match l with
  | [] => true
  | Begin now :: rest => (last <=? now)%Z && clockSteady now rest
  | _ :: rest => clockSteady last rest
  end.

(** * The auth service

    Shallow embedding of [auth-service/src/index.ts]: the registration with
    the service registry and its heartbeats, the two middlewares, and the
    handlers of the user routes over the user and role collections. *)

Module Auth.

Definition HEARTBEAT_INTERVAL : Z := 20000.

(** The delay of [setTimeout(registerService, 5000)]. *)
Definition RETRY_DELAY : Z := 5000.

(** ** Registration and heartbeats

    [registerService] and [sendHeartbeat] are asynchronous; each is cut at
    its [await]. What they do to the outside is an [Effect]; what reaches
    them from the outside is a [Signal]. The state is the variable
    [serviceId] and the number of interval timers that have been started
    (no call of [clearInterval] exists). *)

Inductive Effect :=
  | PostRegister
  | PutHeartbeat (serviceId : string)
  | StartInterval (ms : Z)
  | RetryIn (ms : Z).

#[global] Instance Effect_eq_dec : EqDecision Effect.
Proof. solve_decision. Defined.

Inductive Signal :=
  | Start
  | RegisterSettled (response : option string)
  | Tick
  | HeartbeatSettled (ok : bool).

Record Registration := {
  serviceId : option string;
  intervals : nat
}.

(** [let serviceId: string | null = null] *)
Definition unregistered : Registration :=
  {| serviceId := None; intervals := 0 |}.

(** - [Start]: [registerService()] is called (at load, or by the retry
      timer) and posts the registration.
    - [RegisterSettled (Some id)]: the post succeeded with
      [response.data.serviceId = id]; [RegisterSettled None]: it failed.
    - [Tick]: an interval timer calls [sendHeartbeat()].
    - [HeartbeatSettled ok]: the heartbeat request succeeded or failed; on
      failure [serviceId = null; registerService()]. *)
Definition react (st : Registration) (sig : Signal)
    : list Effect * Registration :=
  match sig with
  | Start => ([PostRegister], st)
  | RegisterSettled (Some id) =>
    ([StartInterval HEARTBEAT_INTERVAL],
     {| serviceId := Some id; intervals := S (intervals st) |})
  | RegisterSettled None => ([RetryIn RETRY_DELAY], st)
  | Tick =>
    match serviceId st with
    | Some id => if bool_decide (id = "") then ([], st) else ([PutHeartbeat id], st)
    | None => ([], st)
    end
  | HeartbeatSettled true => ([], st)
  | HeartbeatSettled false =>
    ([PostRegister], {| serviceId := None; intervals := intervals st |})
  end.

Fixpoint reacts (st : Registration) (sigs : list Signal)
    : list Effect * Registration :=
  match sigs with
  | [] => ([], st)
  | sig :: rest =>
    let '(es, st1) := react st sig in
    let '(es', st2) := reacts st1 rest in
    (es ++ es', st2)
  end.

(** The successful registrations among the signals. *)
Definition registered (sig : Signal) : bool :=
  match sig with
  | RegisterSettled (Some _) => true
  | _ => false
  end.

(** ** Middlewares *)

Inductive Gate :=
  | Deny (r : JsonError)
  | Pass (user : Principal).

(** [isAuthenticated(req, res, next)], on [req.headers]; [Pass decoded] is
    [req.user = decoded; next()]. *)
Definition isAuthenticated `{Externals} (hs : gmap string string) : Gate :=
  let authHeader := hs !! "authorization" in
  if falsy authHeader then
    Deny {| statusCode := 401; error := "Authorization header missing" |}
  else
    let token := split_on " "%char (default "" authHeader) !! 1%nat in
    if falsy token then
      Deny {| statusCode := 401; error := "Token not provided" |}
    else
      match jwt_verify (default "" token) with
      | Some decoded => Pass decoded
      | None => Deny {| statusCode := 403; error := "Invalid or expired token" |}
      end.

(** [userRoles.includes(role)] *)
Definition includes (roles : list string) (role : string) : bool :=
  bool_decide (role ∈ roles).

(** The middleware returned by [hasRole(role)], on [req.user]; [None] is
    [next()]. *)
Definition hasRole (role : string) (user : option Principal) : option JsonError :=
  match user with
  | None => Some {| statusCode := 401; error := "Not authenticated" |}
  | Some u =>
    let userRoles := default [] (user_roles u) in
    if negb (includes userRoles role) && negb (includes userRoles "admin")
    then Some {| statusCode := 403; error := "Insufficient permissions" |}
    else None
  end.

(** The middleware chain [isAuthenticated, hasRole(role)] of [GET /users],
    [GET /users/:id] and [GET /roles]. *)
Definition guard `{Externals} (role : string) (hs : gmap string string) : Gate :=
  match isAuthenticated hs with
  | Deny r => Deny r
  | Pass u =>
    match hasRole role (Some u) with
    | Some r => Deny r
    | None => Pass u
    end
  end.

(** ** Collections

    A collection is the list of its documents, and a handler runs against
    one state of it: the database answers every call, and no other request
    changes the collection between the [await]s of a handler. *)

(** A document of the [User] model. *)
Record User := {
  _id : string;
  username : string;
  email : string;
  password : string;
  firstName : option string;
  lastName : option string;
  roles : list string;
  isActive : bool;
  createdAt : Z;
  updatedAt : Z
}.

(** A document of the [Role] model. *)
Record Role := {
  roleName : string;
  permissions : list string;
  description : string;
  roleCreatedAt : Z;
  roleUpdatedAt : Z
}.

(** [Model.findOne(filter)] on a collection given in the order the query
    scans it: the first document that satisfies the filter, [null] if there
    is none. *)
Definition findOne {A} (P : A → Prop) `{∀ x, Decision (P x)}
    (docs : list A) : option A :=
  head (filter P docs).

(** The payload the service signs into a token. *)
Record TokenPayload := {
  tokenId : string;
  tokenUsername : string;
  tokenEmail : string;
  tokenRoles : list string
}.

(** A member of [req.body] as the JSON body parser leaves it: absent
    ([undefined]), a string, or another JSON value (null, a boolean, a
    number, an array or an object), given by its JSON text. The handlers
    test the truthiness of a member and hand it to a library. *)
Inductive Value :=
  | Undefined
  | Str (s : string)
  | NonString (truthy : bool) (json : string).

(** [!x] *)
Definition falsyValue (v : Value) : bool :=
  match v with
  | Undefined => true
  | Str s => bool_decide (s = "")
  | NonString truthy _ => negb truthy
  end.

(** What the libraries compute.
    - [bcrypt.hash(password, 10)] on a string, with the salt it generates,
      and [bcrypt.compare(password, hash)] on strings; both reject an
      argument that is not a string.
    - [jwt.sign(payload, JWT_SECRET, { expiresIn })] at a clock reading.
    - Whether Mongoose can cast a string to an [ObjectId].
    - What Mongoose makes of a value that is not a string on a path of the
      schema type [String]. In a document ([castString]): the string it
      stores ([Some (Some s)]), [null] ([Some None]), or a cast error
      ([None]). In a query filter [{ path: value }] ([castFilter]): the
      condition on the stored string, which is a comparison with the cast
      value or what the query operators of an object say, or a cast
      error ([None]). *)
Class Libraries := {
  bcrypt_hash : string → string → string;
  bcrypt_compare : string → string → bool;
  jwt_sign : TokenPayload → Z → string;
  castObjectId : string → bool;
  castString : string → option (option string);
  castFilter : string → option (string → bool)
}.

(** The request body of the user routes. *)
Record Body := {
  bodyUsername : Value;
  bodyEmail : Value;
  bodyPassword : Value;
  bodyFirstName : Value;
  bodyLastName : Value;
  bodyRoles : option (list string);
  bodyCurrentPassword : Value;
  bodyNewPassword : Value
}.

(** The [user] object of the register and login responses. *)
Record UserView := {
  viewId : string;
  viewUsername : string;
  viewEmail : string;
  viewFirstName : option string;
  viewLastName : option string;
  viewRoles : list string
}.

Definition view (u : User) : UserView :=
  {| viewId := _id u; viewUsername := username u; viewEmail := email u;
     viewFirstName := firstName u; viewLastName := lastName u;
     viewRoles := roles u |}.

Definition payload (u : User) : TokenPayload :=
  {| tokenId := _id u; tokenUsername := username u; tokenEmail := email u;
     tokenRoles := roles u |}.

Inductive Reply :=
  | Fail (r : JsonError)
  | Session (status : Z) (message : string) (token : string) (user : UserView)
  | Message (status : Z) (message : string).

Definition fail (status : Z) (msg : string) : Reply :=
  Fail {| statusCode := status; error := msg |}.

(** What a handler reads besides the request: the [_id] Mongo gives a new
    document, the salt [bcrypt.hash] draws, and the clock readings behind
    the [createdAt] and [updatedAt] defaults (or [new Date()]) and behind
    [jwt.sign]. *)
Record Inputs := {
  newId : string;
  salt : string;
  createdNow : Z;
  updatedNow : Z;
  signedNow : Z
}.

(** ** Handlers *)

(** The [catch] block of the handlers. *)
Definition internalError : Reply := fail 500 "Internal server error".

(** The condition of a filter [{ path: value }] on a [String] path: a
    string is compared with the stored one; any other value is cast. (The
    handlers never put an absent member in a filter: it is falsy and has
    been answered 400.) *)
Definition filterOn `{Libraries} (v : Value) : option (string → bool) :=
  match v with
  | Str s => Some (λ stored, bool_decide (stored = s))
  | NonString _ json => castFilter json
  | Undefined => Some (λ _, false)
  end.

(** The value of a [String] path of a new document: an absent member
    leaves the path unset, a string is stored as it is, any other value is
    cast. *)
Definition castField `{Libraries} (v : Value) : option (option string) :=
  match v with
  | Undefined => Some None
  | Str s => Some (Some s)
  | NonString _ json => castString json
  end.

(** [User.create({ username, email, password, firstName, lastName,
    roles: ['user'] })]: the members are cast to the schema, [username]
    and [email] are required (a string that is not empty), and both have a
    unique index; [isActive] and the two dates take their defaults. [None]
    when the call throws. *)
Definition createUser `{Libraries} (users : list User)
    (u e : Value) (hashed : string) (f l : Value) (inp : Inputs)
    : option User :=
  match castField u, castField e, castField f, castField l with
  | Some (Some u'), Some (Some e'), Some f', Some l' =>
    if bool_decide (u' = "") || bool_decide (e' = "") then None
    else
      match findOne (λ x, username x = u' ∨ email x = e') users with
      | Some _ => None
      | None =>
        Some {| _id := newId inp; username := u'; email := e';
                password := hashed; firstName := f'; lastName := l';
                roles := ["user"]; isActive := true;
                createdAt := createdNow inp; updatedAt := updatedNow inp |}
      end
  | _, _, _, _ => None
  end.

(** [POST /register]. Whatever throws inside the [try] block ends in the
    [catch] block: a filter or a member that cannot be cast, a password
    that is not a string (which [bcrypt.hash] rejects), a violated unique
    index. *)
Definition register `{Libraries} (users : list User) (body : Body)
    (inp : Inputs) : Reply * list User :=
  if falsyValue (bodyUsername body) || falsyValue (bodyEmail body)
     || falsyValue (bodyPassword body)
  then (fail 400 "Username, email and password are required", users)
  else
    match filterOn (bodyUsername body), filterOn (bodyEmail body) with
    | Some byName, Some byEmail =>
      match findOne (λ x, byName (username x) = true
                          ∨ byEmail (email x) = true) users with
      | Some _ => (fail 409 "Username or email already exists", users)
      | None =>
        match bodyPassword body with
        | Str p =>
          match createUser users (bodyUsername body) (bodyEmail body)
                  (bcrypt_hash p (salt inp))
                  (bodyFirstName body) (bodyLastName body) inp with
          | Some user =>
            (Session 201 "User registered successfully"
               (jwt_sign (payload user) (signedNow inp)) (view user),
             users ++ [user])
          | None => (internalError, users)
          end
        | _ => (internalError, users)
        end
      end
    | _, _ => (internalError, users)
    end.

(** [POST /login]. The submitted name goes into the filter as it is;
    [bcrypt.compare] rejects a password that is not a string. *)
Definition login `{Libraries} (users : list User) (body : Body) (now : Z)
    : Reply :=
  if falsyValue (bodyUsername body) || falsyValue (bodyPassword body)
  then fail 400 "Username and password are required"
  else
    match filterOn (bodyUsername body) with
    | None => internalError
    | Some byName =>
      match findOne (λ x, (byName (username x) = true
                           ∨ byName (email x) = true)
                          ∧ isActive x = true) users with
      | None => fail 401 "Invalid credentials"
      | Some user =>
        match bodyPassword body with
        | Str p =>
          if bcrypt_compare p (password user)
          then Session 200 "Login successful" (jwt_sign (payload user) now)
                 (view user)
          else fail 401 "Invalid credentials"
        | _ => internalError
        end
      end
    end.

(** [user.password = hashedPassword; user.updatedAt = new Date();
    await user.save()]: the document with that [_id] is replaced. *)
Definition save (users : list User) (user : User) : list User :=
  (λ x, if bool_decide (_id x = _id user) then user else x) <$> users.

Definition setPassword (u : User) (hashed : string) (now : Z) : User :=
  {| _id := _id u; username := username u; email := email u;
     password := hashed; firstName := firstName u; lastName := lastName u;
     roles := roles u; isActive := isActive u; createdAt := createdAt u;
     updatedAt := now |}.

(** The handler of [POST /change-password], behind [isAuthenticated];
    [caller] is [req.user]. [User.findById] throws when the id cannot be
    cast, and [bcrypt.compare] and [bcrypt.hash] reject a password that is
    not a string; the [catch] block answers with 500. *)
Definition changePassword `{Libraries} (users : list User)
    (caller : Principal) (body : Body) (inp : Inputs) : Reply * list User :=
  if falsyValue (bodyCurrentPassword body) || falsyValue (bodyNewPassword body)
  then (fail 400 "Current password and new password are required", users)
  else if negb (castObjectId (user_id caller))
  then (internalError, users)
  else
    match findOne (λ x, _id x = user_id caller) users with
    | None => (fail 404 "User not found", users)
    | Some user =>
      match bodyCurrentPassword body with
      | Str cur =>
        if bcrypt_compare cur (password user)
        then
          match bodyNewPassword body with
          | Str new =>
            (Message 200 "Password changed successfully",
             save users
               (setPassword user (bcrypt_hash new (salt inp))
                  (updatedNow inp)))
          | _ => (internalError, users)
          end
        else (fail 401 "Current password is incorrect", users)
      | _ => (internalError, users)
      end
    end.

(** The [updateData] object of [PUT /users/:id]. *)
Record UpdateData := {
  setFirstName : Value;
  setLastName : Value;
  setEmail : Value;
  setUpdatedAt : Z;
  setRoles : option (list string)
}.

(** [PUT /users/:id], behind [isAuthenticated], up to the database call:
    the two permission checks and the [updateData] it builds. *)
Definition planUpdate (caller : Principal) (paramId : string) (body : Body)
    (now : Z) : JsonError + UpdateData :=
  let currentUserRoles := default [] (user_roles caller) in
  if negb (bool_decide (paramId = user_id caller))
     && negb (includes currentUserRoles "admin")
  then inl {| statusCode := 403; error := "Insufficient permissions" |}
  else if bool_decide (is_Some (bodyRoles body))
          && negb (includes currentUserRoles "admin")
  then inl {| statusCode := 403;
              error := "Insufficient permissions to update roles" |}
  else
    inr {| setFirstName := bodyFirstName body;
           setLastName := bodyLastName body;
           setEmail := bodyEmail body;
           setUpdatedAt := now;
           setRoles :=
             if bool_decide (is_Some (bodyRoles body))
                && includes currentUserRoles "admin"
             then bodyRoles body else None |}.

(** ** Start-up data *)

(** The clock readings behind the [createdAt] and [updatedAt] defaults of a
    created role. *)
Definition Stamp : Type := Z * Z.

Definition role (n : string) (ps : list string) (d : string) (t : Stamp) : Role :=
  {| roleName := n; permissions := ps; description := d;
     roleCreatedAt := t.1; roleUpdatedAt := t.2 |}.

(** One iteration of the loop of [initializeRoles]: the role is created
    unless one of that name exists. *)
Definition ensureRole (stored : list Role) (r : Role) : list Role :=
  match findOne (λ x, roleName x = roleName r) stored with
  | Some _ => stored
  | None => stored ++ [r]
  end.

(** The [roles] array of [initializeRoles], with the clock readings of the
    three creations. *)
Definition defaultRoles (t1 t2 t3 : Stamp) : list Role :=
  [ role "admin" ["*"] "Administrator with full access" t1;
    role "editor" ["content:read"; "content:write"; "content:publish"]
      "Content editor" t2;
    role "user" ["content:read"] "Regular user with read-only access" t3 ].

(** [initializeRoles()]. *)
Definition initializeRoles (stored : list Role) (t1 t2 t3 : Stamp)
    : list Role :=
  foldl ensureRole stored (defaultRoles t1 t2 t3).

(** [initializeAdminUser()]: the default administrator is created unless a
    user named [admin] exists. The collection has a unique index on
    [email]: when another user holds the administrator's address the
    creation throws, which is caught and logged. *)
Definition initializeAdminUser `{Libraries} (users : list User) (inp : Inputs)
    : list User :=
  match findOne (λ x, username x = "admin") users with
  | Some _ => users
  | None =>
    match findOne (λ x, email x = "admin@example.com") users with
    | Some _ => users
    | None =>
      users ++
      [ {| _id := newId inp; username := "admin"; email := "admin@example.com";
           password := bcrypt_hash "adminpassword" (salt inp);
           firstName := Some "Admin"; lastName := Some "User";
           roles := ["admin"]; isActive := true;
           createdAt := createdNow inp; updatedAt := updatedNow inp |} ]
    end
  end.

(** ** Sample data *)

Definition emptyBody : Body :=
  {| bodyUsername := Undefined; bodyEmail := Undefined;
     bodyPassword := Undefined; bodyFirstName := Undefined;
     bodyLastName := Undefined; bodyRoles := None;
     bodyCurrentPassword := Undefined; bodyNewPassword := Undefined |}.

Definition credentials (u e p : string) : Body :=
  {| bodyUsername := Str u; bodyEmail := Str e; bodyPassword := Str p;
     bodyFirstName := Undefined; bodyLastName := Undefined;
     bodyRoles := Some ["admin"];
     bodyCurrentPassword := Undefined; bodyNewPassword := Undefined |}.

Definition loginBody (u p : string) : Body :=
  {| bodyUsername := Str u; bodyEmail := Undefined; bodyPassword := Str p;
     bodyFirstName := Undefined; bodyLastName := Undefined; bodyRoles := None;
     bodyCurrentPassword := Undefined; bodyNewPassword := Undefined |}.

Definition passwords (old new : string) : Body :=
  {| bodyUsername := Undefined; bodyEmail := Undefined;
     bodyPassword := Undefined; bodyFirstName := Undefined;
     bodyLastName := Undefined; bodyRoles := None;
     bodyCurrentPassword := Str old; bodyNewPassword := Str new |}.

(** The JSON text of the object whose member [$ne] is [null]. *)
Definition notNull : string :=
  "{" +:+ String "034" "$ne" +:+ String "034" ":null}".

(** A login whose name is that object and whose password is a string. *)
Definition operatorLogin (p : string) : Body :=
  {| bodyUsername := NonString true notNull;
     bodyEmail := Undefined; bodyPassword := Str p;
     bodyFirstName := Undefined; bodyLastName := Undefined; bodyRoles := None;
     bodyCurrentPassword := Undefined; bodyNewPassword := Undefined |}.

(** A stand-in for the libraries: the hash is the salt, a dollar sign and
    the password; a token is the user's id; of the values that are not
    strings, a number is cast to its digits, the object [notNull] is a
    filter that every stored string satisfies, and nothing else can be
    cast. *)
Definition sampleLibraries : Libraries :=
  {| bcrypt_hash := λ p s, s +:+ "$" +:+ p;
     bcrypt_compare := λ p h,
       bool_decide
         (String.substring (String.length h - S (String.length p))
            (S (String.length p)) h = "$" +:+ p);
     jwt_sign := λ pl _, tokenId pl;
     castObjectId := λ i, negb (bool_decide (i = ""));
     castString := λ json,
       if digits json && negb (bool_decide (json = ""))
       then Some (Some json) else None;
     castFilter := λ json,
       if digits json && negb (bool_decide (json = ""))
       then Some (λ stored, bool_decide (stored = json))
       else if bool_decide (json = notNull) then Some (λ _, true)
       else None |}.

Definition sampleInputs (i : string) : Inputs :=
  {| newId := i; salt := "s4lt"; createdNow := 1700000000000;
     updatedNow := 1700000000001; signedNow := 1700000000002 |}.

Definition alice : User :=
  {| _id := "u1"; username := "alice"; email := "alice@example.com";
     password := "s4lt$wonderland"; firstName := None; lastName := None;
     roles := ["user"]; isActive := true;
     createdAt := 1600000000000; updatedAt := 1600000000000 |}.

End Auth.

(** * Properties *)

(** ** Grouping *)

Lemma group_from_lookup (services : list ServiceInfo) :
  ∀ (grouped grouped' : gmap string (list ServiceInfo)) (n : string),
    group_from grouped services = Some grouped' →
    grouped' !! n =
      match grouped !! n, filter (λ s, name s = n) services with
      | None, [] => None
      | o, l => Some (default [] o ++ l)
      end.
Proof.
  induction services as [|s rest IH]; intros grouped grouped' n Hg; simpl in Hg.
  - injection Hg as <-. destruct (grouped !! n); simpl; by rewrite ?app_nil_r.
  - unfold group_step in Hg. destruct (inherited (name s)); [done|].
    rewrite (IH _ _ n Hg). clear IH Hg.
    destruct (decide (name s = n)) as [<-|Hne].
    + rewrite filter_cons_True by done. rewrite lookup_alter_eq.
      destruct (grouped !! name s) as [l0|] eqn:E; simpl.
      * rewrite E. simpl. rewrite <- app_assoc. simpl.
        by destruct (filter _ rest).
      * rewrite lookup_insert_eq. simpl. by destruct (filter _ rest).
    + rewrite filter_cons_False by done. rewrite lookup_alter_ne by done.
      destruct (grouped !! name s); [done|]. by rewrite lookup_insert_ne.
Qed.

Lemma groupServices_lookup (services : list ServiceInfo)
    (grouped : gmap string (list ServiceInfo)) (n : string) :
  groupServices services = Some grouped →
  grouped !! n = groupOf services n.
Proof.
  intros Hg. rewrite (group_from_lookup _ _ _ n Hg), lookup_empty.
  unfold groupOf. by destruct (filter _ services).
Qed.

Lemma group_from_throws (services : list ServiceInfo) :
  ∀ grouped : gmap string (list ServiceInfo),
    group_from grouped services = None ↔
    existsb (λ s, inherited (name s)) services = true.
Proof.
  induction services as [|s rest IH]; intros grouped; simpl.
  - split; discriminate.
  - unfold group_step. destruct (inherited (name s)); simpl.
    + done.
    + apply IH.
Qed.

Lemma groupServices_defined (services : list ServiceInfo) :
  existsb (λ s, inherited (name s)) services = false →
  ∃ grouped, groupServices services = Some grouped.
Proof.
  intros Hn. destruct (groupServices services) as [g|] eqn:E; [by exists g|].
  apply group_from_throws in E. congruence.
Qed.

(** ** Selection *)

Lemma getServiceInstance_empty (st : State) (serviceName : string) :
  default [] (serviceCache st !! serviceName) = [] →
  getServiceInstance st serviceName = (None, st).
Proof. intros He. unfold getServiceInstance. by rewrite He. Qed.

Lemma getServiceInstance_pick (st : State) (serviceName : string)
    (instances : list ServiceInfo) :
  serviceCache st !! serviceName = Some instances →
  instances ≠ [] →
  let cursor := default 0%N (serviceSelectors st !! serviceName) in
  getServiceInstance st serviceName =
    (instances !! (N.to_nat cursor mod length instances)%nat,
     setSelector st serviceName (js_incr cursor)).
Proof.
  intros Hc Hne cursor. unfold getServiceInstance. rewrite Hc. simpl.
  destruct instances as [|i l]; [done|]. simpl length.
  replace (S (length l) =? 0)%nat with false by done.
  f_equal. f_equal. fold cursor.
  rewrite N2Nat.inj_mod, Nat2N.id. done.
Qed.

Lemma lookup_mod_is_Some {A} (l : list A) (i : nat) :
  l ≠ [] → is_Some (l !! (i mod length l)%nat).
Proof.
  intros Hne. apply lookup_lt_is_Some. apply Nat.mod_upper_bound.
  by destruct l.
Qed.

Lemma js_incr_exact (n : N) : (n < 2 ^ 53)%N → js_incr n = (n + 1)%N.
Proof. intros Hn. unfold js_incr. by rewrite (proj2 (N.ltb_lt _ _) Hn). Qed.

(** At [2^53] the counter no longer moves. *)
Lemma js_incr_saturates : js_incr (2 ^ 53) = (2 ^ 53)%N.
Proof. done. Qed.

Lemma selectMany_S (n : nat) (st : State) (serviceName : string) :
  selectMany (S n) st serviceName =
    (fst (getServiceInstance st serviceName)
       :: fst (selectMany n (snd (getServiceInstance st serviceName)) serviceName),
     snd (selectMany n (snd (getServiceInstance st serviceName)) serviceName)).
Proof.
  simpl. destruct (getServiceInstance st serviceName) as [r st1]. simpl.
  by destruct (selectMany n st1 serviceName).
Qed.

Lemma selectMany_stable (serviceName : string) (instances : list ServiceInfo)
    (n : nat) :
  instances ≠ [] →
  ∀ st : State,
    serviceCache st !! serviceName = Some instances →
    let cursor := default 0%N (serviceSelectors st !! serviceName) in
    (cursor + N.of_nat n ≤ 2 ^ 53)%N →
    fst (selectMany n st serviceName) =
      (λ j, instances !! (j mod length instances)%nat) <$> seq (N.to_nat cursor) n
    ∧ default 0%N (serviceSelectors (snd (selectMany n st serviceName)) !! serviceName)
      = (cursor + N.of_nat n)%N.
Proof.
  intros Hne. induction n as [|n IH]; intros st Hc cursor Hb.
  - simpl. split; [done|]. fold cursor. lia.
  - rewrite selectMany_S, (getServiceInstance_pick st serviceName instances Hc Hne).
    fold cursor. simpl fst. simpl snd.
    assert (Hi : js_incr cursor = (cursor + 1)%N) by (apply js_incr_exact; lia).
    rewrite Hi.
    destruct (IH (setSelector st serviceName (cursor + 1)%N)) as [IH1 IH2].
    + done.
    + simpl. rewrite lookup_insert_eq. simpl. lia.
    + simpl in IH1, IH2. rewrite lookup_insert_eq in IH1, IH2. simpl in IH1, IH2.
      split.
      * rewrite IH1. simpl.
        by replace (N.to_nat (cursor + 1)) with (S (N.to_nat cursor)) by lia.
      * rewrite IH2. lia.
Qed.

Lemma rotation_lookups {A} (l : list A) (c : nat) :
  l ≠ [] →
  (λ j, l !! (j mod length l)%nat) <$> seq c (length l) = Some <$> rotate c l.
Proof.
  intros Hne. assert (0 < length l)%nat by (destruct l; [done|simpl; lia]).
  apply list_eq. intros i. rewrite !list_lookup_fmap.
  destruct (decide (i < length l)%nat) as [Hi|Hi].
  - rewrite lookup_seq_lt by done. simpl.
    rewrite lookup_rotate_r by done. unfold rotate_nat_add.
    rewrite <- Nat2Z.inj_add, <- Nat2Z.inj_mod, Nat2Z.id.
    destruct (lookup_lt_is_Some_2 l ((c + i) mod length l)%nat) as [x Hx].
    { by apply Nat.mod_upper_bound, Nat.neq_0_lt_0. }
    by rewrite Hx.
  - rewrite lookup_seq_ge by lia. simpl.
    rewrite lookup_ge_None_2; [done|]. rewrite length_rotate. lia.
Qed.

Lemma rotate_perm {A} (l : list A) (c : nat) : rotate c l ≡ₚ l.
Proof.
  unfold rotate. rewrite Permutation_app_comm. by rewrite take_drop.
Qed.

(** ** Cache refresh *)

Lemma refreshSettle_keeps (st : State) (now : Z) (services : list ServiceInfo) :
  existsb (λ s, inherited (name s)) services = true →
  refreshSettle st now (RegistryData services) = st.
Proof.
  intros Ex. simpl. unfold groupServices.
  by rewrite (proj2 (group_from_throws services ∅) Ex).
Qed.

Lemma refreshSettle_swaps (st : State) (now : Z) (services : list ServiceInfo) :
  existsb (λ s, inherited (name s)) services = false →
  ∃ grouped,
    refreshSettle st now (RegistryData services) = cacheSwap st now grouped
    ∧ ∀ n, grouped !! n = groupOf services n.
Proof.
  intros Ex. destruct (groupServices_defined services Ex) as [g Hg].
  simpl. rewrite Hg. exists g. split; [done|].
  intros n. by apply groupServices_lookup.
Qed.

Lemma refresh_keeps (st : State) (now : Z) (services : list ServiceInfo) :
  (now - lastCacheUpdate st <? SERVICE_CACHE_TTL)%Z
    || existsb (λ s, inherited (name s)) services = true →
  refreshServiceCache st now (RegistryData services) = st.
Proof.
  unfold refreshServiceCache.
  destruct (now - lastCacheUpdate st <? SERVICE_CACHE_TTL)%Z; simpl; [done|].
  apply refreshSettle_keeps.
Qed.

Lemma refresh_swaps (st : State) (now : Z) (services : list ServiceInfo) :
  (now - lastCacheUpdate st <? SERVICE_CACHE_TTL)%Z
    || existsb (λ s, inherited (name s)) services = false →
  ∃ grouped,
    refreshServiceCache st now (RegistryData services) = cacheSwap st now grouped
    ∧ ∀ n, grouped !! n = groupOf services n.
Proof.
  intros [Hdue Ex]%orb_false_elim. unfold refreshServiceCache. rewrite Hdue.
  by apply refreshSettle_swaps.
Qed.

Lemma refresh_failure (st : State) (now : Z) :
  refreshServiceCache st now RegistryFailure = st.
Proof.
  unfold refreshServiceCache.
  by destruct (now - lastCacheUpdate st <? SERVICE_CACHE_TTL)%Z.
Qed.

(** Whatever ran between the start of the fetch and its settling, the
    settling either keeps the state it finds or replaces cache and
    timestamp together. *)
Lemma refreshSettle_all_or_nothing (st : State) (now : Z) (reply : RegistryReply) :
  refreshSettle st now reply = st
  ∨ ∃ services, reply = RegistryData services
      ∧ lastCacheUpdate (refreshSettle st now reply) = now
      ∧ ∀ n, serviceCache (refreshSettle st now reply) !! n = groupOf services n.
Proof.
  destruct reply as [services|]; [|by left].
  destruct (existsb (λ s, inherited (name s)) services) eqn:Ex.
  - left. by apply refreshSettle_keeps.
  - right. exists services. split; [done|].
    destruct (refreshSettle_swaps st now services Ex) as (g & -> & Hg). done.
Qed.

(** C2. A refresh either leaves the whole state as it was, or replaces the
    cache by the grouping of the registry's list and the timestamp by the
    clock reading. It leaves the state as it was when the fetch fails (and
    also when it is not yet due, or when the grouping throws); otherwise
    every name of the new cache holds exactly the listed instances of that
    name and nothing of the old cache remains. *)
Theorem C2_refresh_all_or_nothing (st : State) (now : Z) (reply : RegistryReply) :
  let st' := refreshServiceCache st now reply in
  match reply with
  | RegistryFailure =>
    st' = st ∧ ∀ n, serviceCache st' !! n = serviceCache st !! n
  | RegistryData services =>
    if (now - lastCacheUpdate st <? SERVICE_CACHE_TTL)%Z
       || existsb (λ s, inherited (name s)) services
    then st' = st
    else lastCacheUpdate st' = now
         ∧ serviceSelectors st' = serviceSelectors st
         ∧ ∀ n, serviceCache st' !! n = groupOf services n
  end.
Proof.
  intros st'. subst st'. destruct reply as [services|].
  - destruct (_ || _) eqn:E.
    + by apply refresh_keeps.
    + destruct (refresh_swaps st now services E) as (g & -> & Hg). by simpl.
  - by rewrite refresh_failure.
Qed.

(** ** Selection and status *)

(** C1, as the code has it. The gateway applies no filter on [status]:
    after a refresh that swaps, the cached group of a name is every
    instance the registry listed under that name, in listed order, and
    [getServiceInstance] returns the member of that group at index cursor
    mod length, whatever its status. *)
Theorem C1_selection_from_whole_group (st : State) (now : Z)
    (services group : list ServiceInfo) (serviceName : string) :
  inherited serviceName = false →
  (SERVICE_CACHE_TTL ≤ now - lastCacheUpdate st)%Z →
  existsb (λ s, inherited (name s)) services = false →
  filter (λ s, name s = serviceName) services = group →
  group ≠ [] →
  let st1 := refreshServiceCache st now (RegistryData services) in
  let cursor := default 0%N (serviceSelectors st !! serviceName) in
  serviceCache st1 !! serviceName = Some group
  ∧ fst (getServiceInstance st1 serviceName)
    = group !! (N.to_nat cursor mod length group)%nat
  ∧ ∃ inst, fst (getServiceInstance st1 serviceName) = Some inst
            ∧ inst ∈ services ∧ name inst = serviceName.
Proof.
  intros _ Hdue Hnames Hgroup Hne st1 cursor.
  destruct (refresh_swaps st now services) as (g & Hst1 & Hcache).
  { by rewrite (proj2 (Z.ltb_ge _ _) Hdue), Hnames. }
  fold st1 in Hst1.
  assert (Hsel : serviceSelectors st1 = serviceSelectors st) by by rewrite Hst1.
  assert (Hcache' : ∀ n, serviceCache st1 !! n = groupOf services n)
    by (intros n; by rewrite Hst1).
  clear Hcache. rename Hcache' into Hcache.
  assert (Hc : serviceCache st1 !! serviceName = Some group).
  { rewrite Hcache. unfold groupOf. rewrite Hgroup. by destruct group. }
  split; [done|].
  rewrite (getServiceInstance_pick st1 serviceName group Hc Hne). simpl.
  rewrite Hsel. fold cursor. split; [done|].
  destruct (lookup_mod_is_Some group (N.to_nat cursor) Hne) as [inst Hi].
  exists inst. split; [done|].
  apply list_elem_of_lookup_2 in Hi. rewrite <- Hgroup in Hi.
  by apply list_elem_of_filter in Hi as [? ?].
Qed.


(** C3. While the cached group of a name stays the same list of [k]
    instances and the counter is below [2^53], [n] consecutive selections
    return the instances at indices cursor, cursor + 1, ... modulo [k] and
    advance the counter by [n]; [k] consecutive selections return the
    registration order rotated by the cursor, so each instance exactly
    once. *)
Theorem C3_round_robin_rotation (st : State) (serviceName : string)
    (instances : list ServiceInfo) (n : nat) :
  inherited serviceName = false →
  serviceCache st !! serviceName = Some instances →
  instances ≠ [] →
  let cursor := default 0%N (serviceSelectors st !! serviceName) in
  (cursor + N.of_nat n ≤ 2 ^ 53)%N →
  fst (selectMany n st serviceName) =
    (λ j, instances !! (j mod length instances)%nat) <$> seq (N.to_nat cursor) n
  ∧ default 0%N (serviceSelectors (snd (selectMany n st serviceName)) !! serviceName)
    = (cursor + N.of_nat n)%N
  ∧ (n = length instances →
     fst (selectMany n st serviceName) = Some <$> rotate (N.to_nat cursor) instances
     ∧ rotate (N.to_nat cursor) instances ≡ₚ instances).
Proof.
  intros _ Hc Hne cursor Hb.
  destruct (selectMany_stable serviceName instances n Hne st Hc Hb) as [H1 H2].
  fold cursor in H1, H2. split; [done|]. split; [done|].
  intros ->. split; [|apply rotate_perm].
  rewrite H1. by apply rotation_lookups.
Qed.

(** Registering A, B, C for content-service in that order: four selections
    yield A, B, C, A. *)
Lemma C3_round_robin_rotation_witness :
  fst (selectMany 4
         (refreshServiceCache initial 100000 (RegistryData [instA; instB; instC]))
         "content-service")
  = [Some instA; Some instB; Some instC; Some instA].
Proof.
  exact (proj1 (C3_round_robin_rotation
                  (refreshServiceCache initial 100000
                     (RegistryData [instA; instB; instC]))
                  "content-service" [instA; instB; instC] 4
                  eq_refl eq_refl ltac:(discriminate) ltac:(vm_compute; discriminate))).
Defined.

Lemma C1_selection_from_whole_group_witness :
  serviceCache (refreshServiceCache initial 100000 (RegistryData [instA; staleB]))
    !! "content-service" = Some [instA; staleB].
Proof.
  exact (proj1 (C1_selection_from_whole_group initial 100000
                  [instA; staleB] [instA; staleB] "content-service"
                  eq_refl ltac:(vm_compute; discriminate) eq_refl eq_refl
                  ltac:(discriminate))).
Defined.

(** The claim C1 as the specification states it fails: a listed instance
    whose status is [stale] is cached and selected. *)
Lemma C1_stale_instance_selected :
  ¬ (∀ (st : State) (now : Z) (reply : RegistryReply) (serviceName : string)
       (inst : ServiceInfo),
       fst (getServiceInstance (refreshServiceCache st now reply) serviceName)
         = Some inst →
       status inst = "active").
Proof.
  intros H.
  specialize (H initial 100000%Z (RegistryData [staleB]) "content-service"
                staleB eq_refl).
  discriminate H.
Qed.


(** ** Strings *)

Lemma append_nil (s : string) : "" +:+ s = s.
Proof. done. Qed.

Lemma append_cons (c : ascii) (s t : string) :
  String c s +:+ t = String c (s +:+ t).
Proof. done. Qed.

Create Rewrite HintDb append.
#[local] Hint Rewrite append_nil append_cons : append.


Lemma strip_prefix_Some (p s rest : string) :
  strip_prefix p s = Some rest → s = p +:+ rest.
Proof.
  revert s. induction p as [|a p IH]; intros s; simpl.
  - by intros [= ->].
  - destruct s as [|b s]; [done|]. case_bool_decide; [|done].
    intros Hs. subst b. by rewrite (IH _ Hs).
Qed.

Lemma split_on_spaceless (s : string) :
  spaceless s = true → split_on " " s = [s].
Proof.
  induction s as [|c s IH]; simpl; [done|].
  intros [Hc Hs]%andb_prop. case_bool_decide; [done|]. by rewrite (IH Hs).
Qed.

Lemma split_on_field (scheme rest : string) :
  spaceless scheme = true →
  split_on " " (scheme +:+ " " +:+ rest) = scheme :: split_on " " rest.
Proof.
  induction scheme as [|c s IH]; simpl; [done|].
  intros [Hc Hs]%andb_prop. case_bool_decide; [done|]. by rewrite (IH Hs).
Qed.


Lemma pathRewrite_other (serviceName path : string) :
  strip_prefix ("/api/" +:+ serviceName) path = None →
  pathRewrite serviceName path = if bool_decide (path = "") then "/" else path.
Proof. intros Hn. unfold pathRewrite. by rewrite Hn. Qed.






(** The mounted prefixes ([/api/auth], [/api/content], [/admin]) are not
    [/api/] followed by the service name, so the paths of the mounted
    routes go upstream as they came in. *)
Example mounted_path_kept :
  pathRewrite "auth-service" "/api/auth/login" = "/api/auth/login"
  ∧ pathRewrite "auth-service" "/api/auth-service/login" = "/login"
  ∧ pathRewrite "frontend" "/admin" = "/admin".
Proof. done. Qed.

(** Every mounted service name is within what the embedding covers: it is
    no member of [Object.prototype] and has no regular-expression
    metacharacter. *)
Lemma routes_covered :
  Forall (λ r, inherited (service r) = false
               ∧ regexp_literal (service r) = true) routes.
Proof. repeat constructor. Qed.

(** The public listing reads [status]; the selection does not. *)
Example listed_down_but_selected :
  let st := refreshServiceCache initial 100000 (RegistryData [staleB]) in
  publicServices st = [("content-service", 1%nat, "down")]
  ∧ fst (getServiceInstance st "content-service") = Some staleB.
Proof. by vm_compute. Qed.

(** ** The proxy middleware *)

Section Middleware.
Context `{Externals}.

Lemma forward_empty (serviceName : string) (st1 : State) (env : Env)
    (req : Request) :
  default [] (serviceCache st1 !! serviceName) = [] →
  forward serviceName st1 env req = (Answered (unavailable serviceName), st1).
Proof.
  intros He. unfold forward. by rewrite getServiceInstance_empty.
Qed.

Lemma forward_withRegistry (serviceName : string) (st1 : State) (env : Env)
    (reply : RegistryReply) (req : Request) :
  forward serviceName st1 (withRegistry env reply) req
  = forward serviceName st1 env req.
Proof. done. Qed.

Lemma refreshIfStale_fresh (st : State) (env : Env) :
  (clockHandler env - lastCacheUpdate st < SERVICE_CACHE_TTL)%Z →
  refreshIfStale st env = st.
Proof.
  intros Hf. unfold refreshIfStale. rewrite Z.geb_leb.
  by rewrite (proj2 (Z.leb_gt _ _) Hf).
Qed.

Lemma refreshIfStale_stale (st : State) (env : Env) :
  (SERVICE_CACHE_TTL ≤ clockHandler env - lastCacheUpdate st)%Z →
  refreshIfStale st env
  = refreshServiceCache st (clockRefresh env) (registry env).
Proof.
  intros Hs. unfold refreshIfStale. rewrite Z.geb_leb.
  by rewrite (proj2 (Z.leb_le _ _) Hs).
Qed.

Lemma forward_target (serviceName : string) (st1 : State) (env : Env)
    (req : Request) (out : ProxyReq) (code : Z)
    (responseHeaders : gmap string string) (payload : string) :
  fst (forward serviceName st1 env req)
  = Relayed out code responseHeaders payload →
  ∃ inst, fst (getServiceInstance st1 serviceName) = Some inst
          ∧ out = proxyRequest serviceName inst req (clockProxy env) (random36 env).
Proof.
  unfold forward. destruct (getServiceInstance st1 serviceName) as [[inst|] st2];
    simpl; [|discriminate].
  case_bool_decide; simpl; [discriminate|].
  destruct (upstream env _); simpl; [|discriminate].
  intros [= <- _ _ _]. by exists inst.
Qed.

Lemma forward_no_target (serviceName : string) (st1 st2 : State) (env : Env)
    (req : Request) (inst : ServiceInfo) :
  getServiceInstance st1 serviceName = (Some inst, st2) →
  url inst = "" →
  forward serviceName st1 env req
  = (Answered {| statusCode := 500; error := "Gateway error" |}, st2).
Proof.
  intros Hsel Hu. unfold forward. rewrite Hsel.
  by rewrite bool_decide_eq_true_2.
Qed.

(** C4, as the code has it. When the cached group of the name (after the
    refresh the middleware may have awaited) has no instance at all, the
    request is answered with status 503 and a JSON error body, and the
    state is not touched any further. *)
Theorem C4_no_instance_503 (serviceName : string) (st : State) (env : Env)
    (req : Request) :
  inherited serviceName = false →
  default [] (serviceCache (refreshIfStale st env) !! serviceName) = [] →
  fst (getServiceInstance (refreshIfStale st env) serviceName) = None
  ∧ createServiceProxy serviceName st env req
    = (Answered {| statusCode := 503;
                   error := "Service " +:+ serviceName +:+ " is not available" |},
       refreshIfStale st env).
Proof.
  intros _ He. split.
  - by rewrite getServiceInstance_empty.
  - unfold createServiceProxy. by rewrite forward_empty.
Qed.

(** C5, as the code has it. While the cache is younger than the TTL the
    middleware selects from the cached entry and the registry plays no
    part. Once it is older, the middleware awaits [refreshServiceCache]
    and selects from the state this leaves: from the old cache when the
    fetch failed, and from the registry's fresh list when it was swapped
    in. *)
Theorem C5_refresh_awaited_when_stale (serviceName : string) (st : State)
    (env : Env) (req : Request) :
  inherited serviceName = false →
  ((clockHandler env - lastCacheUpdate st < SERVICE_CACHE_TTL)%Z →
   ∀ reply, createServiceProxy serviceName st (withRegistry env reply) req
            = forward serviceName st env req)
  ∧ ((SERVICE_CACHE_TTL ≤ clockHandler env - lastCacheUpdate st)%Z →
     createServiceProxy serviceName st env req
     = forward serviceName
         (refreshServiceCache st (clockRefresh env) (registry env)) env req
     ∧ (registry env = RegistryFailure →
        createServiceProxy serviceName st env req
        = forward serviceName st env req)
     ∧ (∀ services out code responseHeaders payload,
          registry env = RegistryData services →
          (SERVICE_CACHE_TTL ≤ clockRefresh env - lastCacheUpdate st)%Z →
          existsb (λ s, inherited (name s)) services = false →
          fst (createServiceProxy serviceName st env req)
            = Relayed out code responseHeaders payload →
          ∃ inst, inst ∈ services ∧ name inst = serviceName
                  ∧ target out = url inst)).
Proof.
  intros _. split.
  - intros Hf reply. unfold createServiceProxy.
    rewrite refreshIfStale_fresh by done. apply forward_withRegistry.
  - intros Hs. unfold createServiceProxy. rewrite refreshIfStale_stale by done.
    split; [done|]. split.
    + intros ->. by rewrite refresh_failure.
    + intros services out code responseHeaders payload Hr Hdue Hnames Hout.
      rewrite Hr in Hout.
      apply forward_target in Hout as (inst & Hsel & ->).
      destruct (refresh_swaps st (clockRefresh env) services) as (g & Hst1 & Hg).
      { by rewrite (proj2 (Z.ltb_ge _ _) Hdue), Hnames. }
      rewrite Hst1 in Hsel. exists inst.
      unfold getServiceInstance in Hsel. simpl in Hsel.
      rewrite Hg in Hsel. unfold groupOf in Hsel.
      destruct (filter (λ s, name s = serviceName) services) as [|i l] eqn:Ef;
        [discriminate|].
      simpl in Hsel. apply list_elem_of_lookup_2 in Hsel.
      rewrite <- Ef in Hsel. apply list_elem_of_filter in Hsel as [? ?].
      done.
Qed.

(** C6, as the code has it. When the call to the selected instance fails in
    the transport, the caller receives the JSON error written by [onError],
    with status 500. *)
Theorem C6_transport_error_500 (serviceName : string) (st : State) (env : Env)
    (req : Request) (inst : ServiceInfo) (st2 : State) (code : string) :
  getServiceInstance (refreshIfStale st env) serviceName = (Some inst, st2) →
  url inst ≠ "" →
  upstream env (proxyRequest serviceName inst req (clockProxy env) (random36 env))
    = TransportError code →
  createServiceProxy serviceName st env req
  = (Answered {| statusCode := 500; error := "Service communication error" |},
     st2).
Proof.
  intros Hsel Hu Hup. unfold createServiceProxy, forward. rewrite Hsel.
  rewrite bool_decide_eq_false_2 by done. by rewrite Hup.
Qed.

Lemma refreshIfStale_failure (st : State) (env : Env) :
  registry env = RegistryFailure → refreshIfStale st env = st.
Proof.
  intros Hr. unfold refreshIfStale. rewrite Hr, refresh_failure.
  by destruct (_ >=? _)%Z.
Qed.

Lemma run_cold (events : list Event) (st : State) :
  serviceCache st = ∅ →
  forallb fetchFails events = true →
  run st events = (coldAnswer <$> events, st).
Proof.
  intros Hempty. induction events as [|ev rest IH]; intros Hall; [done|].
  simpl in Hall. apply andb_prop in Hall as [Hev Hrest].
  simpl. destruct ev as [now reply|serviceName env req]; simpl in *.
  - destruct reply; [discriminate|]. rewrite refresh_failure.
    by rewrite (IH Hrest).
  - apply andb_prop in Hev as [Hf _].
    destruct (registry env) eqn:Hr; [discriminate|].
    unfold createServiceProxy. rewrite (refreshIfStale_failure st env Hr).
    rewrite forward_empty by (by rewrite Hempty, lookup_empty).
    by rewrite (IH Hrest).
Qed.

(** C10. The gateway starts with an empty cache. As long as every registry
    fetch has failed, whatever the registry holds, the state is still the
    initial one, [getServiceInstance] returns [null] for every name, and
    every request that reached a proxy middleware was answered with status
    503 and the service-not-available body. *)
Theorem C10_cold_start (events : list Event) (serviceName : string) :
  forallb fetchFails events = true →
  inherited serviceName = false →
  serviceCache initial = ∅
  ∧ run initial events = (coldAnswer <$> events, initial)
  ∧ getServiceInstance (snd (run initial events)) serviceName = (None, initial)
  ∧ statusCode (unavailable serviceName) = 503%Z.
Proof.
  intros Hall _. rewrite (run_cold events initial eq_refl Hall). done.
Qed.



Lemma onProxyReq_identity (outgoing : gmap string string) (req : Request)
    (now : Z) (rnd : string) (u : Principal) :
  user req = Some u →
  onProxyReq outgoing req now rnd !! "x-user-id" = Some (user_id u)
  ∧ onProxyReq outgoing req now rnd !! "x-user-roles"
    = Some (JSON_stringify (default [] (user_roles u))).
Proof.
  intros Hu. unfold onProxyReq. rewrite Hu. split.
  - rewrite lookup_insert_ne by done. apply lookup_insert_eq.
  - apply lookup_insert_eq.
Qed.

Lemma deleteLength_other (req : Request) (h : string) :
  h ∉ ["content-length"; "transfer-encoding"] →
  deleteLength req !! h = headers req !! h.
Proof.
  intros Hh. apply not_elem_of_cons in Hh as [H1 Hh].
  apply not_elem_of_cons in Hh as [H2 _].
  unfold deleteLength. destruct (_ && _); [|done].
  by rewrite lookup_delete_ne, lookup_insert_ne.
Qed.


Lemma setupOutgoing_other (target : string) (incoming : gmap string string)
    (h : string) :
  h ∉ ["host"; "connection"] →
  setupOutgoing target incoming !! h = incoming !! h.
Proof.
  intros Hh. apply not_elem_of_cons in Hh as [H1 Hh].
  apply not_elem_of_cons in Hh as [H2 _].
  unfold setupOutgoing. rewrite lookup_insert_ne by done.
  destruct (asksUpgrade _); [done|]. by rewrite lookup_insert_ne.
Qed.



(** The [expect] header of the outgoing request is the incoming one. *)
Lemma outgoing_expect (target : string) (req : Request) :
  setupOutgoing target (deleteLength req) !! "expect"
  = headers req !! "expect".
Proof.
  rewrite setupOutgoing_other, deleteLength_other; [done|..];
    rewrite !not_elem_of_cons; repeat split; try done; apply not_elem_of_nil.
Qed.

Lemma proxyHeaders_hook (serviceName : string) (inst : ServiceInfo)
    (req : Request) (now : Z) (rnd : string) :
  falsy (headers req !! "expect") = true →
  proxyHeaders (proxyRequest serviceName inst req now rnd)
  = onProxyReq (setupOutgoing (url inst) (deleteLength req)) req now rnd.
Proof. intros He. simpl. by rewrite outgoing_expect, He. Qed.

Lemma proxyHeaders_no_hook (serviceName : string) (inst : ServiceInfo)
    (req : Request) (now : Z) (rnd : string) :
  falsy (headers req !! "expect") = false →
  proxyHeaders (proxyRequest serviceName inst req now rnd)
  = setupOutgoing (url inst) (deleteLength req).
Proof. intros He. simpl. by rewrite outgoing_expect, He. Qed.




Lemma authenticateJWT_no_header (req : Request) :
  headers req !! "authorization" = None →
  authenticateJWT req
  = AuthRejected {| statusCode := 401; error := "Authorization header missing" |}.
Proof. intros Hh. unfold authenticateJWT. by rewrite Hh. Qed.

Lemma authenticateJWT_no_token (req : Request) (h : string) :
  headers req !! "authorization" = Some h →
  falsy (split_on " " h !! 1%nat) = true →
  ∃ msg, authenticateJWT req
         = AuthRejected {| statusCode := 401; error := msg |}.
Proof.
  intros Hh Ht. unfold authenticateJWT. rewrite Hh. simpl.
  case_bool_decide; [eauto|]. rewrite Ht. eauto.
Qed.

(** The token is the second field of the header, whatever surrounds it. *)
Lemma authenticateJWT_token (req : Request) (h token : string) :
  headers req !! "authorization" = Some h →
  split_on " " h !! 1%nat = Some token → token ≠ "" →
  authenticateJWT req
  = match jwt_verify token with
    | Some decoded => AuthNext (setUser req decoded)
    | None =>
      AuthRejected {| statusCode := 403; error := "Invalid or expired token" |}
    end.
Proof.
  intros Hh Ht Hne. unfold authenticateJWT. rewrite Hh. simpl.
  rewrite bool_decide_eq_false_2 by (by intros ->).
  rewrite Ht. simpl. by rewrite bool_decide_eq_false_2 by done.
Qed.

(** C8, as the code has it. On a route guarded by [authenticateJWT], a
    request with no [Authorization] header, or with one that has no second
    space-separated field, is answered 401 and goes no further. Otherwise
    the second field is verified, whatever the first field (the scheme
    word) is and whatever follows the second: when verification fails the
    request is answered 403; when it succeeds the decoded payload is
    attached as [req.user], the request reaches the proxy middleware, and
    [onProxyReq] sets [x-user-id] and [x-user-roles] from it, which the
    outgoing request of every request without an [expect] header then
    carries. *)
Theorem C8_auth_gate (serviceName : string) (st : State) (env : Env)
    (req : Request) :
  (headers req !! "authorization" = None →
   protectedRoute serviceName st env req
   = (Answered {| statusCode := 401; error := "Authorization header missing" |},
      st))
  ∧ (∀ h, headers req !! "authorization" = Some h →
          falsy (split_on " " h !! 1%nat) = true →
          ∃ msg, protectedRoute serviceName st env req
                 = (Answered {| statusCode := 401; error := msg |}, st))
  ∧ (∀ h token,
       headers req !! "authorization" = Some h →
       split_on " " h !! 1%nat = Some token → token ≠ "" →
       match jwt_verify token with
       | None =>
         protectedRoute serviceName st env req
         = (Answered {| statusCode := 403; error := "Invalid or expired token" |},
            st)
       | Some decoded =>
         authenticateJWT req = AuthNext (setUser req decoded)
         ∧ user (setUser req decoded) = Some decoded
         ∧ protectedRoute serviceName st env req
           = createServiceProxy serviceName st env (setUser req decoded)
         ∧ (∀ outgoing now rnd,
              onProxyReq outgoing (setUser req decoded) now rnd !! "x-user-id"
              = Some (user_id decoded)
              ∧ onProxyReq outgoing (setUser req decoded) now rnd
                  !! "x-user-roles"
                = Some (JSON_stringify (default [] (user_roles decoded))))
         ∧ (falsy (headers req !! "expect") = true →
            ∀ inst now rnd,
              let out :=
                proxyRequest serviceName inst (setUser req decoded) now rnd in
              proxyHeaders out !! "x-user-id" = Some (user_id decoded)
              ∧ proxyHeaders out !! "x-user-roles"
                = Some (JSON_stringify (default [] (user_roles decoded))))
       end).
Proof.
  unfold protectedRoute. split; [|split].
  - intros Hh. by rewrite authenticateJWT_no_header.
  - intros h Hh Ht.
    destruct (authenticateJWT_no_token req h Hh Ht) as [msg ->]. eauto.
  - intros h token Hh Ht Hne.
    rewrite (authenticateJWT_token req h token Hh Ht Hne).
    destruct (jwt_verify token) as [decoded|]; [|done].
    do 3 (split; [done|]). split.
    + intros outgoing now0 rnd0. by apply onProxyReq_identity.
    + intros He inst0 now0 rnd0. cbv zeta.
      rewrite proxyHeaders_hook by done. by apply onProxyReq_identity.
Qed.

(** ** The outgoing path *)







End Middleware.

Lemma C10_cold_start_witness :
  run (H := sampleExternals) initial
    [ Refresh 100000 RegistryFailure;
      Incoming "content-service"
        (sampleEnv 100000 RegistryFailure ok200)
        (sampleRequest []) ]
  = ([None; Some (Answered (unavailable "content-service"))], initial).
Proof.
  exact (proj1 (proj2 (C10_cold_start (H := sampleExternals)
    [ Refresh 100000 RegistryFailure;
      Incoming "content-service"
        (sampleEnv 100000 RegistryFailure ok200)
        (sampleRequest []) ]
    "content-service" eq_refl eq_refl))).
Defined.

Lemma C4_no_instance_503_witness :
  fst (createServiceProxy (H := sampleExternals) "frontend" initial
         (sampleEnv 100000 (RegistryData [instA]) ok200)
         (sampleRequest []))
  = Answered {| statusCode := 503;
                error := "Service frontend is not available" |}.
Proof.
  exact (f_equal fst (proj2 (C4_no_instance_503 (H := sampleExternals)
    "frontend" initial
    (sampleEnv 100000 (RegistryData [instA]) ok200)
    (sampleRequest []) eq_refl eq_refl))).
Defined.

(** The claim C4 as the specification states it fails: a name whose only
    cached instance is not active has no healthy instance, and the request
    is forwarded to that instance instead of being answered with 503. *)
Lemma C4_stale_only_group_is_forwarded :
  ¬ (∀ (E : Externals) (serviceName : string) (st : State) (env : Env)
       (req : Request),
       (∀ inst,
          inst ∈ default [] (serviceCache (refreshIfStale st env) !! serviceName) →
          status inst ≠ "active") →
       ∃ st', createServiceProxy serviceName st env req
              = (Answered (unavailable serviceName), st')).
Proof.
  intros Hc.
  destruct (Hc sampleExternals "content-service" initial
              (sampleEnv 100000 (RegistryData [staleB]) ok200)
              (sampleRequest [])) as [st' Hst'].
  - intros inst Hin. change (inst ∈ [staleB]) in Hin.
    apply list_elem_of_singleton in Hin as ->. discriminate.
  - apply (f_equal fst) in Hst'. vm_compute in Hst'. discriminate Hst'.
Qed.

Lemma C5_refresh_awaited_when_stale_witness :
  createServiceProxy (H := sampleExternals) "content-service" initial
    (sampleEnv 100000 (RegistryData [instA]) ok200)
    (sampleRequest [])
  = forward (H := sampleExternals) "content-service"
      (refreshServiceCache initial 100000 (RegistryData [instA]))
      (sampleEnv 100000 (RegistryData [instA]) ok200)
      (sampleRequest []).
Proof.
  exact (proj1 (proj2 (C5_refresh_awaited_when_stale (H := sampleExternals)
    "content-service" initial
    (sampleEnv 100000 (RegistryData [instA]) ok200)
    (sampleRequest []) eq_refl) ltac:(vm_compute; discriminate))).
Defined.

(** The claim C5 as the specification states it fails: with a stale cache
    the answer to the request depends on what the registry replies during
    the request, so the request has waited for the fetch. *)
Lemma C5_answer_depends_on_fetch :
  ¬ (∀ (E : Externals) (serviceName : string) (st : State) (env : Env)
       (reply : RegistryReply) (req : Request),
       fst (createServiceProxy serviceName st (withRegistry env reply) req)
       = fst (createServiceProxy serviceName st env req)).
Proof.
  intros Hc.
  specialize (Hc sampleExternals "content-service" initial
                (sampleEnv 100000 RegistryFailure ok200)
                (RegistryData [instA]) (sampleRequest [])).
  vm_compute in Hc. discriminate Hc.
Qed.

Lemma C6_transport_error_500_witness :
  fst (createServiceProxy (H := sampleExternals) "content-service" initial
         (sampleEnv 100000 (RegistryData [instA]) (TransportError "ECONNREFUSED"))
         (sampleRequest []))
  = Answered {| statusCode := 500; error := "Service communication error" |}.
Proof.
  exact (f_equal fst (C6_transport_error_500 (H := sampleExternals)
    "content-service" initial
    (sampleEnv 100000 (RegistryData [instA]) (TransportError "ECONNREFUSED"))
    (sampleRequest []) instA
    (snd (getServiceInstance
            (refreshIfStale initial
               (sampleEnv 100000 (RegistryData [instA])
                  (TransportError "ECONNREFUSED")))
            "content-service"))
    "ECONNREFUSED" eq_refl ltac:(discriminate) eq_refl)).
Defined.

(** The claim C6 as the specification states it fails: a refused connection
    is answered with status 500, which is neither 503 nor 504. *)
Lemma C6_transport_error_not_503_504 :
  ¬ (∀ (E : Externals) (serviceName : string) (st : State) (env : Env)
       (req : Request) (inst : ServiceInfo) (st2 : State) (code : string),
       getServiceInstance (refreshIfStale st env) serviceName = (Some inst, st2) →
       upstream env
         (proxyRequest serviceName inst req (clockProxy env) (random36 env))
         = TransportError code →
       ∃ r, fst (createServiceProxy serviceName st env req) = Answered r
            ∧ (statusCode r = 503%Z ∨ statusCode r = 504%Z)).
Proof.
  intros Hc.
  destruct (Hc sampleExternals "content-service" initial
              (sampleEnv 100000 (RegistryData [instA]) (TransportError "ECONNREFUSED"))
              (sampleRequest []) instA
              (snd (getServiceInstance
                      (refreshIfStale initial
                         (sampleEnv 100000 (RegistryData [instA])
                            (TransportError "ECONNREFUSED")))
                      "content-service"))
              "ECONNREFUSED" eq_refl eq_refl) as (r & Hr & Hs).
  vm_compute in Hr. injection Hr as <-. simpl in Hs.
  destruct Hs; discriminate.
Qed.




Lemma C8_auth_gate_witness :
  authenticateJWT (H := sampleExternals)
    (sampleRequest [("authorization", "Bearer good")])
  = AuthNext
      (setUser (sampleRequest [("authorization", "Bearer good")])
         {| user_id := "u1"; user_roles := Some ["admin"; "editor"] |})
  ∧ protectedRoute (H := sampleExternals) "frontend" initial
      (sampleEnv 100000 RegistryFailure ok200)
      (sampleRequest [])
    = (Answered {| statusCode := 401; error := "Authorization header missing" |},
       initial).
Proof.
  pose proof (C8_auth_gate (H := sampleExternals) "frontend" initial
                (sampleEnv 100000 RegistryFailure ok200)
                (sampleRequest [("authorization", "Bearer good")])) as (_ & _ & H3).
  pose proof (C8_auth_gate (H := sampleExternals) "frontend" initial
                (sampleEnv 100000 RegistryFailure ok200)
                (sampleRequest [])) as (H1 & _).
  split.
  - exact (proj1 (H3 "Bearer good" "good" eq_refl eq_refl ltac:(discriminate))).
  - exact (H1 eq_refl).
Defined.

(** The claim C8 as the specification states it fails. A request whose
    [Authorization] header is not a [Bearer] credential is not rejected
    with 401 when the header has a second field; that field is verified
    and, here, rejected with 403. And the identity of a verified caller is
    not forwarded when the request has an [expect] header, for which the
    proxy library does not run [onProxyReq]. *)
Lemma C8_scheme_unchecked_and_hook_skipped :
  ¬ (∀ (E : Externals) (req : Request),
       (¬ ∃ token, headers req !! "authorization" = Some ("Bearer " +:+ token)) →
       ∃ msg, authenticateJWT req
              = AuthRejected {| statusCode := 401; error := msg |})
  ∧ ¬ (∀ (E : Externals) (serviceName : string) (inst : ServiceInfo)
         (req : Request) (decoded : Principal) (now : Z) (rnd : string),
         authenticateJWT req = AuthNext (setUser req decoded) →
         proxyHeaders (proxyRequest serviceName inst (setUser req decoded)
                         now rnd) !! "x-user-id"
         = Some (user_id decoded)).
Proof.
  split.
  - intros Hc.
    destruct (Hc sampleExternals (sampleRequest [("authorization", "Basic abc")]))
      as [msg Hmsg].
    + intros [token Ht]. vm_compute in Ht. discriminate Ht.
    + vm_compute in Hmsg. discriminate Hmsg.
  - intros Hc.
    specialize (Hc sampleExternals "frontend" instA
                  (sampleRequest [("authorization", "Bearer good");
                                  ("expect", "100-continue")])
                  {| user_id := "u1"; user_roles := Some ["admin"; "editor"] |}
                  100000%Z "0.4fzyo82mvyr" eq_refl).
    vm_compute in Hc. discriminate Hc.
Qed.



(** What the amended claim C9 leaves out, as the code has it. The payload
    of a request that the JSON body parser has read is not forwarded. *)
Example json_body_is_not_forwarded :
  proxyBody
    (proxyRequest (H := sampleExternals) "auth-service"
       (instance "A" "auth-service" "http://10.0.0.1:3002" "active")
       {| method := "POST"; path := "/api/auth/login";
          headers := {[ "content-type" := "application/json" ]};
          body := "{}"; _body := true; user := None |}
       100000 "0.4fzyo82mvyr") = "".
Proof. reflexivity. Qed.

(** And the path of a request on a mounted route goes upstream with its
    prefix, unlike the example in the comment of [pathRewrite]
    ([/api/auth/login -> /login]). *)
Example mounted_path_is_not_stripped :
  proxyPath
    (proxyRequest (H := sampleExternals) "auth-service"
       (instance "A" "auth-service" "http://10.0.0.1:3002" "active")
       {| method := "POST"; path := "/api/auth/login";
          headers := ∅; body := ""; _body := false; user := None |}
       100000 "0.4fzyo82mvyr") = "/api/auth/login".
Proof. by vm_compute. Qed.


(** * Further properties of the gateway *)

Lemma getServiceInstance_frame (st : State) (serviceName : string) :
  let st' := snd (getServiceInstance st serviceName) in
  serviceCache st' = serviceCache st
  ∧ lastCacheUpdate st' = lastCacheUpdate st
  ∧ ∀ m, m ≠ serviceName → serviceSelectors st' !! m = serviceSelectors st !! m.
Proof.
  unfold getServiceInstance. destruct (_ =? _)%nat; simpl; [done|].
  repeat split. intros m Hm. by rewrite lookup_insert_ne.
Qed.

Lemma groupedByName_initial : groupedByName initial.
Proof. intros n l Hl. simpl in Hl. by rewrite lookup_empty in Hl. Qed.

Lemma groupOf_Some (services : list ServiceInfo) (n : string)
    (l : list ServiceInfo) :
  groupOf services n = Some l →
  l = filter (λ s, name s = n) services ∧ l ≠ [].
Proof.
  unfold groupOf. destruct (filter _ services) as [|x xs] eqn:E; [done|].
  by intros [= <-].
Qed.

Lemma groupedByName_refresh (st : State) (now : Z) (reply : RegistryReply) :
  groupedByName st → groupedByName (refreshServiceCache st now reply).
Proof.
  intros Hst. destruct reply as [services|]; [|by rewrite refresh_failure].
  destruct ((now - lastCacheUpdate st <? SERVICE_CACHE_TTL)%Z
            || existsb (λ s, inherited (name s)) services) eqn:E.
  - by rewrite refresh_keeps.
  - destruct (refresh_swaps st now services E) as (g & -> & Hg).
    intros n l Hl. simpl in Hl. rewrite Hg in Hl.
    apply groupOf_Some in Hl as [-> Hne]. split; [done|].
    intros s Hs. by apply list_elem_of_filter in Hs as [? _].
Qed.

Section Runs.
Context `{Externals}.

Lemma forward_state (serviceName : string) (st1 : State) (env : Env)
    (req : Request) :
  snd (forward serviceName st1 env req)
  = snd (getServiceInstance st1 serviceName).
Proof.
  unfold forward. destruct (getServiceInstance st1 serviceName) as [[i|] st2];
    simpl; [|done].
  case_bool_decide; [done|]. by destruct (upstream env _).
Qed.

Lemma refreshIfStale_cases (st : State) (env : Env) :
  refreshIfStale st env = st
  ∨ refreshIfStale st env
    = refreshServiceCache st (clockRefresh env) (registry env).
Proof. unfold refreshIfStale. destruct (_ >=? _)%Z; auto. Qed.

Lemma step_state (st : State) (ev : Event) :
  ∃ st1, (st1 = st ∨ ∃ now reply, st1 = refreshServiceCache st now reply)
         ∧ ((step st ev).2 = st1
            ∨ ∃ n, (step st ev).2 = (getServiceInstance st1 n).2).
Proof.
  destruct ev as [now reply|n env req]; simpl.
  - exists (refreshServiceCache st now reply). split; [|by left].
    right. by exists now, reply.
  - unfold createServiceProxy.
    destruct (forward n (refreshIfStale st env) env req) as [o st'] eqn:E.
    simpl. exists (refreshIfStale st env). split.
    + destruct (refreshIfStale_cases st env) as [->| ->]; [by left|].
      right. by exists (clockRefresh env), (registry env).
    + right. exists n. by rewrite <- (forward_state n _ env req), E.
Qed.

Lemma run_cons (st : State) (ev : Event) (events : list Event) :
  run st (ev :: events)
  = ((step st ev).1 :: (run (step st ev).2 events).1,
     (run (step st ev).2 events).2).
Proof.
  simpl. destruct (step st ev) as [o st1]. simpl.
  by destruct (run st1 events).
Qed.

Lemma groupedByName_step (st : State) (ev : Event) :
  groupedByName st → groupedByName (step st ev).2.
Proof.
  intros Hst. destruct (step_state st ev) as (st1 & Hst1 & Hstep).
  assert (groupedByName st1) as H1.
  { destruct Hst1 as [->|(now & reply & ->)]; [done|].
    by apply groupedByName_refresh. }
  destruct Hstep as [->|[n ->]]; [done|].
  intros m l Hl.
  rewrite (proj1 (getServiceInstance_frame st1 n)) in Hl. by apply H1.
Qed.

Lemma groupedByName_run (events : list Event) :
  ∀ st, groupedByName st → groupedByName (run st events).2.
Proof.
  induction events as [|ev rest IH]; intros st Hst; [done|].
  rewrite run_cons. simpl. by apply IH, groupedByName_step.
Qed.

(** X1. Whatever refreshes and requests the gateway has gone through since
    start-up, every name that has an entry in the cache has at least one
    instance there, and every cached instance sits under its own name. So
    [getServiceInstance] returns [null] exactly for the names that have no
    entry. *)
Theorem X1_cache_groups (events : list Event) (serviceName : string) :
  let st := (run initial events).2 in
  (∀ l, serviceCache st !! serviceName = Some l →
        l ≠ [] ∧ ∀ s, s ∈ l → name s = serviceName)
  ∧ (inherited serviceName = false →
     ((getServiceInstance st serviceName).1 = None
      ↔ serviceCache st !! serviceName = None)).
Proof.
  intros st.
  assert (Hinv : groupedByName st)
    by apply groupedByName_run, groupedByName_initial.
  split; [by intros l Hl; apply Hinv|]. intros _.
  unfold getServiceInstance.
  destruct (serviceCache st !! serviceName) as [l|] eqn:E; simpl; [|done].
  destruct (Hinv _ _ E) as [Hne _]. destruct l as [|x l]; [done|]. simpl.
  split; [|done]. intros Hnone.
  destruct (lookup_lt_is_Some_2 (x :: l)
    (N.to_nat (default 0%N (serviceSelectors st !! serviceName)
               `mod` N.of_nat (S (length l))))) as [y Hy]; [|congruence].
  rewrite N2Nat.inj_mod, Nat2N.id. by apply Nat.mod_upper_bound.
Qed.

(** X2. For a name whose cached group is not empty, [getServiceInstance]
    returns an instance of that group whatever value the counter has, also
    one left over from a larger group: the index never leaves the list. *)
Theorem X2_selection_in_bounds (st : State) (serviceName : string)
    (l : list ServiceInfo) :
  inherited serviceName = false →
  serviceCache st !! serviceName = Some l →
  l ≠ [] →
  ∃ inst, (getServiceInstance st serviceName).1 = Some inst ∧ inst ∈ l.
Proof.
  intros _ Hc Hne. rewrite (getServiceInstance_pick st serviceName l Hc Hne).
  destruct (lookup_mod_is_Some l
    (N.to_nat (default 0%N (serviceSelectors st !! serviceName))) Hne)
    as [inst Hi].
  exists inst. split; [done|]. by apply list_elem_of_lookup_2 in Hi.
Qed.

Lemma X2_selection_in_bounds_witness :
  ∃ inst,
    (getServiceInstance
       {| serviceCache := {[ "content-service" := [instA; instB] ]};
          lastCacheUpdate := 0;
          serviceSelectors := {[ "content-service" := 5%N ]} |}
       "content-service").1 = Some inst
    ∧ inst ∈ [instA; instB].
Proof.
  exact (X2_selection_in_bounds
           {| serviceCache := {[ "content-service" := [instA; instB] ]};
              lastCacheUpdate := 0;
              serviceSelectors := {[ "content-service" := 5%N ]} |}
           "content-service" [instA; instB] eq_refl eq_refl
           ltac:(discriminate)).
Defined.

(** X3. [getServiceInstance] changes nothing but the counter of the name it
    is asked for: cache, timestamp and the counters of all other names stay
    as they were; when it returns [null] the state is untouched, so asking
    for an unknown name creates no counter. *)
Theorem X3_selection_frame (st : State) (serviceName : string) :
  inherited serviceName = false →
  let '(r, st') := getServiceInstance st serviceName in
  serviceCache st' = serviceCache st
  ∧ lastCacheUpdate st' = lastCacheUpdate st
  ∧ (∀ m, m ≠ serviceName →
          serviceSelectors st' !! m = serviceSelectors st !! m)
  ∧ (r = None → st' = st).
Proof.
  intros _.
  pose proof (getServiceInstance_frame st serviceName) as Hf.
  destruct (getServiceInstance st serviceName) as [r st'] eqn:E.
  simpl in Hf. destruct Hf as (Hc & Ht & Hs). do 3 (split; [done|]).
  intros ->. unfold getServiceInstance in E.
  destruct (serviceCache st !! serviceName) as [l|] eqn:El; simpl in E.
  - destruct l as [|x l]; simpl in E; [by injection E|].
    injection E as E _.
    destruct (lookup_lt_is_Some_2 (x :: l)
      (N.to_nat (default 0%N (serviceSelectors st !! serviceName)
                 `mod` N.of_nat (S (length l))))) as [y Hy]; [|congruence].
    rewrite N2Nat.inj_mod, Nat2N.id. by apply Nat.mod_upper_bound.
  - by injection E.
Qed.

Lemma X3_selection_frame_witness :
  (getServiceInstance initial "frontend").2 = initial.
Proof.
  pose proof (X3_selection_frame initial "frontend" eq_refl) as Hf.
  simpl in Hf. exact (proj2 (proj2 (proj2 Hf)) eq_refl).
Defined.



(** A run that is not interleaved with anything is [refreshServiceCache]
    as [step] has it. *)
Lemma act_whole_run (r : Running) (now : Z) (reply : RegistryReply) :
  acts r [Begin now; Settle (length (inFlight r)) reply]
  = {| current := refreshServiceCache (current r) now reply;
       inFlight := inFlight r |}.
Proof.
  unfold acts, refreshServiceCache. simpl.
  destruct (now - lastCacheUpdate (current r) <? SERVICE_CACHE_TTL)%Z eqn:E;
    simpl.
  - rewrite lookup_ge_None_2 by lia. by destruct r.
  - rewrite list_lookup_middle by done. f_equal.
    assert (Hd : ∀ l : list Z, delete (length l) (l ++ [now]) = l).
    { intros l. induction l as [|x l IH]; [done|]. simpl. by rewrite IH. }
    apply Hd.
Qed.

Lemma refreshSettle_timestamp (st : State) (now : Z) (reply : RegistryReply) :
  lastCacheUpdate (refreshSettle st now reply) = lastCacheUpdate st
  ∨ lastCacheUpdate (refreshSettle st now reply) = now.
Proof.
  unfold refreshSettle. destruct reply as [services|]; [|by left].
  destruct (groupServices services); [by right|by left].
Qed.

Lemma StronglySorted_snoc (l : list Z) (y : Z) :
  StronglySorted Z.le l → Forall (λ x, (x ≤ y)%Z) l →
  StronglySorted Z.le (l ++ [y]).
Proof.
  induction l as [|x l IH]; intros Hs Hy; simpl.
  - by repeat constructor.
  - apply StronglySorted_inv in Hs as [Hs Hx].
    apply Forall_cons in Hy as [Hxy Hy]. constructor; [by apply IH|].
    apply Forall_app. split; [done|]. by repeat constructor.
Qed.

(** The invariant of in-order settling under a steady clock: the runs in
    flight are in the order of their clock readings, none of which is
    before the timestamp of the cache or after the last reading. *)
Lemma acts_in_order (l : list Action) :
  ∀ (r : Running) (last : Z),
    StronglySorted Z.le (inFlight r) →
    Forall (λ now, (lastCacheUpdate (current r) ≤ now ≤ last)%Z) (inFlight r) →
    forallb inOrder l = true →
    clockSteady last l = true →
    (lastCacheUpdate (current r) ≤ lastCacheUpdate (current (acts r l)))%Z
    ∧ Forall (λ now, (lastCacheUpdate (current (acts r l)) ≤ now)%Z)
        (inFlight (acts r l)).
Proof.
  induction l as [|a l IH]; intros r last Hs Hb Hord Hclock.
  - split; [done|]. simpl. eapply Forall_impl; [done|]. simpl. lia.
  - simpl in Hord. apply andb_prop in Hord as [Ha Hord].
    change (acts r (a :: l)) with (acts (act r a) l).
    destruct a as [now|k reply|n].
    + simpl in Hclock. apply andb_prop in Hclock as [Hnow Hclock].
      apply Z.leb_le in Hnow. simpl.
      destruct (now - lastCacheUpdate (current r) <? SERVICE_CACHE_TTL)%Z eqn:E.
      * apply (IH r now); [done| |done..].
        eapply Forall_impl; [done|]. simpl. lia.
      * apply Z.ltb_ge in E. unfold SERVICE_CACHE_TTL in E.
        apply (IH {| current := current r; inFlight := inFlight r ++ [now] |}
                 now); [| |done..]; simpl.
        -- apply StronglySorted_snoc; [done|].
           eapply Forall_impl; [done|]. simpl. lia.
        -- apply Forall_app. split.
           ++ eapply Forall_impl; [done|]. simpl. lia.
           ++ repeat constructor; lia.
    + simpl in Ha. apply bool_decide_eq_true in Ha as ->. simpl in Hclock.
      simpl. destruct (inFlight r) as [|now rest] eqn:Ef; simpl.
      * apply (IH r last); [by rewrite Ef| by rewrite Ef|done..].
      * apply StronglySorted_inv in Hs as [Hs Hrest].
        apply Forall_cons in Hb as [Hnow Hb].
        destruct (refreshSettle_timestamp (current r) now reply) as [Ht|Ht].
        -- destruct (IH {| current := refreshSettle (current r) now reply;
                           inFlight := rest |} last) as [Hle Hall];
             [done| |done..|].
           { simpl. rewrite Ht. done. }
           simpl in Hle. rewrite Ht in Hle. done.
        -- destruct (IH {| current := refreshSettle (current r) now reply;
                           inFlight := rest |} last) as [Hle Hall];
             [done| |done..|].
           { simpl. rewrite Ht. rewrite Forall_forall in Hrest, Hb.
             apply Forall_forall. intros x Hx.
             specialize (Hrest x Hx). specialize (Hb x Hx). simpl in Hb. lia. }
           simpl in Hle. rewrite Ht in Hle. split; [lia|done].
    + simpl in Hclock. simpl.
      pose proof (getServiceInstance_frame (current r) n) as (_ & Ht & _).
      simpl in Ht.
      destruct (IH {| current := (getServiceInstance (current r) n).2;
                      inFlight := inFlight r |} last) as [Hle Hall];
        [done| |done..|].
      { simpl. by rewrite Ht. }
      simpl in Hle. rewrite Ht in Hle. done.
Qed.

(** X5. Runs of [refreshServiceCache] overlap: each is cut at its [await].
    When the clock readings of the runs never go back and the fetches
    settle in the order they were issued, the timestamp of the cache never
    goes back over any interleaving of beginnings, settlements and
    selections, and it is never later than the clock reading of a run that
    is still in flight. *)
Theorem X5_timestamp_monotone (st : State) (l : list Action) (start : Z) :
  forallb inOrder l = true →
  clockSteady start l = true →
  let r := acts (settled st) l in
  (lastCacheUpdate st ≤ lastCacheUpdate (current r))%Z
  ∧ Forall (λ now, (lastCacheUpdate (current r) ≤ now)%Z) (inFlight r).
Proof.
  intros Hord Hclock r. subst r.
  apply (acts_in_order l (settled st) start); [constructor|constructor|done..].
Qed.

(** Without the order the timestamp can go back: two runs begin while the
    cache is stale, and the older one settles last. *)
Example overlapping_refresh_moves_timestamp_back :
  let l := [ Begin 100000; Begin 100010;
             Settle 1 (RegistryData [instA]); Settle 0 (RegistryData [instA]) ] in
  clockSteady 0 l = true
  ∧ lastCacheUpdate (current (acts (settled initial) (take 3 l))) = 100010%Z
  ∧ lastCacheUpdate (current (acts (settled initial) l)) = 100000%Z.
Proof. by vm_compute. Qed.

Lemma groupedByName_groupOf (st : State) (services : list ServiceInfo) :
  (∀ n, serviceCache st !! n = groupOf services n) → groupedByName st.
Proof.
  intros Hg n l Hl. rewrite Hg in Hl.
  apply groupOf_Some in Hl as [-> Hne]. split; [done|].
  intros s Hs. by apply list_elem_of_filter in Hs as [? _].
Qed.

(** One action either leaves cache and timestamp alone or is a settlement
    that puts the grouping of its whole listing in place. *)
Lemma act_cache (r : Running) (a : Action) :
  (serviceCache (current (act r a)) = serviceCache (current r)
   ∧ lastCacheUpdate (current (act r a)) = lastCacheUpdate (current r))
  ∨ ∃ k services,
      a = Settle k (RegistryData services)
      ∧ ∀ n, serviceCache (current (act r a)) !! n = groupOf services n.
Proof.
  destruct a as [now|k reply|n]; simpl.
  - left. by destruct (_ <? _)%Z.
  - destruct (inFlight r !! k) as [now|]; [|by left]. simpl.
    destruct (refreshSettle_all_or_nothing (current r) now reply)
      as [->|(services & -> & _ & Hg)]; [by left|].
    right. by exists k, services.
  - left. by destruct (getServiceInstance_frame (current r) n) as (? & ? & _).
Qed.

Lemma acts_cache (l : list Action) :
  ∀ r : Running,
    (serviceCache (current (acts r l)) = serviceCache (current r)
     ∨ ∃ k services,
         Settle k (RegistryData services) ∈ l
         ∧ ∀ n, serviceCache (current (acts r l)) !! n = groupOf services n)
    ∧ (forallb settlesFail l = true →
       serviceCache (current (acts r l)) = serviceCache (current r)
       ∧ lastCacheUpdate (current (acts r l)) = lastCacheUpdate (current r)).
Proof.
  induction l as [|a l IH]; intros r; [by split; [left|]|].
  change (acts r (a :: l)) with (acts (act r a) l).
  destruct (IH (act r a)) as [Hsnap Hfail]. split.
  - destruct Hsnap as [Hsame|(k & services & Hin & Hg)].
    + destruct (act_cache r a) as [[Hc _]|(k & services & -> & Hg)].
      * left. by rewrite Hsame.
      * right. exists k, services. split; [by left|].
        intros n. by rewrite Hsame.
    + right. exists k, services. split; [by right|done].
  - intros Hall. simpl in Hall. apply andb_prop in Hall as [Ha Hl].
    destruct (Hfail Hl) as [-> ->].
    destruct (act_cache r a) as [Hsame|(k & services & -> & _)]; [done|].
    discriminate Ha.
Qed.

(** X23. Over any interleaving of overlapping runs of
    [refreshServiceCache] and selections, with fetches settling in any
    order: the cache is at every point either the one the interleaving
    started from or the grouping of the whole listing of one fetch that
    has settled, never a mixture; so it keeps every name's instances
    together under that name; and while no fetch has succeeded, cache and
    timestamp are the ones it started from. *)
Theorem X23_overlapping_runs (st : State) (l : list Action) :
  let r := acts (settled st) l in
  (serviceCache (current r) = serviceCache st
   ∨ ∃ k services,
       Settle k (RegistryData services) ∈ l
       ∧ ∀ n, serviceCache (current r) !! n = groupOf services n)
  ∧ (groupedByName st → groupedByName (current r))
  ∧ (forallb settlesFail l = true →
     serviceCache (current r) = serviceCache st
     ∧ lastCacheUpdate (current r) = lastCacheUpdate st).
Proof.
  intros r. subst r.
  destruct (acts_cache l (settled st)) as [Hsnap Hfail].
  split; [done|]. split; [|done].
  intros Hst. destruct Hsnap as [Hsame|(k & services & _ & Hg)].
  - intros n g Hg. rewrite Hsame in Hg. by apply Hst.
  - by apply (groupedByName_groupOf _ services).
Qed.

Lemma run_failing (events : list Event) (st : State) :
  forallb fetchFails events = true →
  serviceCache (run st events).2 = serviceCache st
  ∧ lastCacheUpdate (run st events).2 = lastCacheUpdate st.
Proof.
  revert st. induction events as [|ev rest IH]; intros st Hall; [done|].
  simpl in Hall. apply andb_prop in Hall as [Hev Hrest].
  rewrite run_cons. simpl. destruct (IH (step st ev).2 Hrest) as [-> ->].
  destruct ev as [now reply|n env req]; simpl in *.
  - destruct reply; [discriminate|]. by rewrite refresh_failure.
  - apply andb_prop in Hev as [Hf _].
    destruct (registry env) eqn:Hr; [discriminate|].
    unfold createServiceProxy. rewrite (refreshIfStale_failure st env Hr).
    destruct (forward n st env req) as [o st'] eqn:E. simpl.
    replace st' with (forward n st env req).2 by by rewrite E.
    rewrite forward_state.
    destruct (getServiceInstance_frame st n) as (Hc & Ht & _). done.
Qed.

Lemma forward_pick (serviceName : string) (st1 : State) (env : Env)
    (req : Request) (l : list ServiceInfo) :
  serviceCache st1 !! serviceName = Some l →
  l ≠ [] →
  (∀ s, s ∈ l → url s ≠ "") →
  ∃ inst, inst ∈ l
    ∧ (forward serviceName st1 env req).1
      = match upstream env (proxyRequest serviceName inst req
                             (clockProxy env) (random36 env)) with
        | UpstreamResponse code responseHeaders payload =>
          Relayed (proxyRequest serviceName inst req
                     (clockProxy env) (random36 env))
            code responseHeaders payload
        | TransportError code => Answered (onError serviceName code)
        end.
Proof.
  intros Hc Hne Hurl. unfold forward.
  rewrite (getServiceInstance_pick st1 serviceName l Hc Hne).
  destruct (lookup_mod_is_Some l
    (N.to_nat (default 0%N (serviceSelectors st1 !! serviceName))) Hne)
    as [inst Hi].
  rewrite Hi. exists inst.
  assert (inst ∈ l) as Hin by by apply list_elem_of_lookup_2 in Hi.
  split; [done|]. rewrite bool_decide_eq_false_2 by by apply Hurl.
  by destruct (upstream env _).
Qed.

(** X6. While the registry cannot be reached the gateway keeps serving the
    snapshot it has: a sequence of refreshes and requests whose fetches all
    fail leaves cache and timestamp exactly as they were, and a request
    that follows is still forwarded to one of the instances cached for its
    name (or answered by [onError] if that instance cannot be reached),
    never answered 503. *)
Theorem X6_snapshot_served_while_registry_down (st : State)
    (events : list Event) (serviceName : string) (env : Env) (req : Request)
    (l : list ServiceInfo) :
  inherited serviceName = false →
  forallb fetchFails events = true →
  registry env = RegistryFailure →
  serviceCache st !! serviceName = Some l →
  l ≠ [] →
  (∀ s, s ∈ l → url s ≠ "") →
  let st' := (run st events).2 in
  serviceCache st' = serviceCache st
  ∧ lastCacheUpdate st' = lastCacheUpdate st
  ∧ ∃ inst, inst ∈ l
      ∧ (createServiceProxy serviceName st' env req).1
        = match upstream env (proxyRequest serviceName inst req
                               (clockProxy env) (random36 env)) with
          | UpstreamResponse code responseHeaders payload =>
            Relayed (proxyRequest serviceName inst req
                       (clockProxy env) (random36 env))
              code responseHeaders payload
          | TransportError code => Answered (onError serviceName code)
          end.
Proof.
  intros _ Hall Hr Hc Hne Hurl st'.
  destruct (run_failing events st Hall) as [Hcache Htime]. fold st' in Hcache, Htime.
  do 2 (split; [done|]). unfold createServiceProxy.
  rewrite (refreshIfStale_failure st' env Hr).
  apply forward_pick; [by rewrite Hcache|done..].
Qed.

(** X8. On a route without [authenticateJWT] the request has no verified
    user, and the proxy then leaves [x-user-id] and [x-user-roles] as the
    caller sent them: identity headers supplied by the caller reach the
    upstream unchanged. *)
Theorem X8_identity_headers_pass_through (serviceName : string)
    (inst : ServiceInfo) (req : Request) (now : Z) (rnd : string) :
  user req = None →
  let out := proxyRequest serviceName inst req now rnd in
  proxyHeaders out !! "x-user-id" = headers req !! "x-user-id"
  ∧ proxyHeaders out !! "x-user-roles" = headers req !! "x-user-roles".
Proof.
  intros Hu out. subst out.
  assert (Hout : ∀ h, h = "x-user-id" ∨ h = "x-user-roles" →
            proxyHeaders (proxyRequest serviceName inst req now rnd) !! h
            = headers req !! h).
  { intros h Hh.
    transitivity (setupOutgoing (url inst) (deleteLength req) !! h).
    - destruct (falsy (headers req !! "expect")) eqn:He.
      + rewrite proxyHeaders_hook by done. unfold onProxyReq. rewrite Hu.
        apply lookup_insert_ne. by destruct Hh as [-> | ->].
      + by rewrite proxyHeaders_no_hook.
    - rewrite setupOutgoing_other, deleteLength_other; [done|..];
        rewrite !not_elem_of_cons; destruct Hh as [-> | ->];
        repeat split; try done; apply not_elem_of_nil. }
  split; apply Hout; auto.
Qed.

(** X9. The token [authenticateJWT] verifies is the text between the first
    and the second space of the header, whatever follows: further fields
    are ignored, and a second space right after the scheme word leaves an
    empty token, which is answered 401. *)
Theorem X9_token_is_second_field (req : Request) (scheme token rest : string) :
  spaceless scheme = true →
  spaceless token = true →
  (headers req !! "authorization"
     = Some (scheme +:+ " " +:+ token +:+ " " +:+ rest) →
   token ≠ "" →
   authenticateJWT req
   = match jwt_verify token with
     | Some decoded => AuthNext (setUser req decoded)
     | None =>
       AuthRejected {| statusCode := 403; error := "Invalid or expired token" |}
     end)
  ∧ (headers req !! "authorization" = Some (scheme +:+ " " +:+ " " +:+ rest) →
     authenticateJWT req
     = AuthRejected {| statusCode := 401; error := "Token not provided" |}).
Proof.
  intros Hs Ht. split.
  - intros Hh Hne. unfold authenticateJWT. rewrite Hh. simpl.
    rewrite bool_decide_eq_false_2 by (by destruct scheme).
    rewrite !split_on_field by done. simpl.
    by rewrite bool_decide_eq_false_2 by done.
  - intros Hh. unfold authenticateJWT. rewrite Hh. simpl.
    rewrite bool_decide_eq_false_2 by (by destruct scheme).
    rewrite split_on_field by done. by autorewrite with append.
Qed.

End Runs.

Lemma X5_timestamp_monotone_witness :
  (0 ≤ lastCacheUpdate
         (current
            (acts (settled initial)
               [ Begin 100000; Begin 100010;
                 Settle 0 (RegistryData [instA]);
                 Settle 0 (RegistryData [instA; instB]) ])))%Z.
Proof.
  exact (proj1 (X5_timestamp_monotone initial
                  [ Begin 100000; Begin 100010;
                    Settle 0 (RegistryData [instA]);
                    Settle 0 (RegistryData [instA; instB]) ]
                  0 eq_refl eq_refl)).
Defined.

Lemma X23_overlapping_runs_witness :
  serviceCache
    (current
       (acts (settled (refreshServiceCache initial 100000 (RegistryData [instA])))
          [ Begin 200000; Begin 200010; Select "content-service";
            Settle 1 RegistryFailure; Settle 0 RegistryFailure ]))
  = serviceCache (refreshServiceCache initial 100000 (RegistryData [instA])).
Proof.
  exact (proj1 (proj2 (proj2 (X23_overlapping_runs
    (refreshServiceCache initial 100000 (RegistryData [instA]))
    [ Begin 200000; Begin 200010; Select "content-service";
      Settle 1 RegistryFailure; Settle 0 RegistryFailure ])) eq_refl)).
Defined.

Lemma X1_cache_groups_witness :
  [instA; staleB] ≠ [] ∧ ∀ s, s ∈ [instA; staleB] → name s = "content-service".
Proof.
  exact (proj1 (X1_cache_groups (H := sampleExternals)
                  [Refresh 100000 (RegistryData [instA; staleB])]
                  "content-service")
               [instA; staleB] eq_refl).
Defined.


(** ** The public listing *)

Lemma publicServices_elem (st : State) (n : string) (c : nat) (s : string) :
  (n, c, s) ∈ publicServices st
  ↔ ∃ l, serviceCache st !! n = Some l
         ∧ c = length l
         ∧ s = if existsb (λ i, bool_decide (status i = "active")) l
               then "active" else "down".
Proof.
  unfold publicServices. rewrite list_elem_of_fmap. split.
  - intros ([n' l] & Heq & Hin). injection Heq as -> -> ->.
    apply elem_of_map_to_list in Hin. by exists l.
  - intros (l & Hl & -> & ->). exists (n, l). split; [done|].
    by apply elem_of_map_to_list.
Qed.

Lemma publicServices_names (st : State) :
  (publicServices st).*1.*1 = (map_to_list (serviceCache st)).*1.
Proof.
  unfold publicServices. rewrite <- !list_fmap_compose.
  apply list_fmap_ext. by intros i [n l] _.
Qed.

Lemma active_exists (l : list ServiceInfo) :
  existsb (λ i, bool_decide (status i = "active")) l = true
  ↔ ∃ i, i ∈ l ∧ status i = "active".
Proof.
  rewrite existsb_exists. split.
  - intros (i & Hin & Hs). exists i. split; [by apply list_elem_of_In|].
    by apply bool_decide_eq_true in Hs.
  - intros (i & Hin & Hs). exists i. split; [by apply list_elem_of_In|].
    by apply bool_decide_eq_true.
Qed.

(** X7. [GET /api/services], at any point of the gateway's life: the
    listing has one entry per cached name; each entry counts at least one
    instance; its status is [active] exactly when one of the cached
    instances of that name has status [active], and [down] otherwise. The
    state it leaves is the one left by the refresh it awaits. *)
Theorem X7_public_listing `{Externals} (events : list Event) (now : Z)
    (reply : RegistryReply) :
  let st := (run initial events).2 in
  let listing := (apiServices st now reply).1 in
  let st' := (apiServices st now reply).2 in
  st' = refreshServiceCache st now reply
  ∧ NoDup (listing.*1.*1)
  ∧ (∀ n, is_Some (serviceCache st' !! n) ↔ ∃ c s, (n, c, s) ∈ listing)
  ∧ (∀ n c s, (n, c, s) ∈ listing →
       (1 ≤ c)%nat
       ∧ serviceCache st' !! n ≠ None
       ∧ (s = "active" ∨ s = "down")
       ∧ (s = "active"
          ↔ ∃ l i, serviceCache st' !! n = Some l ∧ i ∈ l
                   ∧ status i = "active")).
Proof.
  intros st listing st'. subst listing st'. unfold apiServices. simpl.
  set (st' := refreshServiceCache st now reply).
  assert (Hinv : groupedByName st').
  { apply groupedByName_refresh, groupedByName_run, groupedByName_initial. }
  split; [done|]. split; [|split].
  - rewrite publicServices_names. apply NoDup_fst_map_to_list.
  - intros n. split.
    + intros [l Hl]. eexists _, _. apply publicServices_elem. eauto.
    + intros (c & s & Hin). apply publicServices_elem in Hin as (l & Hl & _).
      by exists l.
  - intros n c s Hin. apply publicServices_elem in Hin as (l & Hl & -> & ->).
    destruct (Hinv n l Hl) as [Hne _].
    split; [destruct l; [done|simpl; lia]|]. split; [by rewrite Hl|].
    destruct (existsb _ l) eqn:Ex.
    + split; [by left|]. split; [|done]. intros _.
      apply active_exists in Ex as (i & Hi & Hs). by exists l, i.
    + split; [by right|]. split; [done|].
      intros (l' & i & Hl' & Hi & Hs). rewrite Hl in Hl'. injection Hl' as <-.
      assert (existsb (λ i, bool_decide (status i = "active")) l = true)
        by (apply active_exists; eauto).
      congruence.
Qed.

Lemma X7_public_listing_witness :
  (1 ≤ 2)%nat
  ∧ serviceCache
      (apiServices initial 100000 (RegistryData [instA; staleB])).2
      !! "content-service" ≠ None.
Proof.
  pose proof (X7_public_listing (H := sampleExternals) [] 100000
                (RegistryData [instA; staleB])) as (_ & _ & _ & Hl).
  destruct (Hl "content-service" 2%nat "active") as (H1 & H2 & _).
  - apply publicServices_elem. exists [instA; staleB]. by vm_compute.
  - exact (conj H1 H2).
Defined.

Lemma X6_snapshot_served_while_registry_down_witness :
  serviceCache
    (run (H := sampleExternals)
       (refreshServiceCache initial 100000 (RegistryData [instA]))
       [Refresh 200000 RegistryFailure]).2
  = serviceCache (refreshServiceCache initial 100000 (RegistryData [instA])).
Proof.
  refine (proj1 (X6_snapshot_served_while_registry_down (H := sampleExternals)
    (refreshServiceCache initial 100000 (RegistryData [instA]))
    [Refresh 200000 RegistryFailure] "content-service"
    (sampleEnv 200000 RegistryFailure ok200)
    (sampleRequest []) [instA] eq_refl eq_refl eq_refl eq_refl
    ltac:(discriminate) _)).
  intros s Hs. apply list_elem_of_singleton in Hs as ->. discriminate.
Defined.

(** A caller of an open route who sends [x-user-id: root] has it forwarded. *)
Lemma X8_identity_headers_pass_through_witness :
  proxyHeaders
    (proxyRequest (H := sampleExternals) "content-service" instA
       (sampleRequest [("x-user-id", "root")]) 100000 "0.4fzyo82mvyr")
    !! "x-user-id" = Some "root".
Proof.
  exact (proj1 (X8_identity_headers_pass_through (H := sampleExternals)
                  "content-service" instA
                  (sampleRequest [("x-user-id", "root")])
                  100000 "0.4fzyo82mvyr" eq_refl)).
Defined.

Lemma X9_token_is_second_field_witness :
  authenticateJWT (H := sampleExternals)
    (sampleRequest [("authorization", "Bearer good and more")])
  = AuthNext
      (setUser (sampleRequest [("authorization", "Bearer good and more")])
         {| user_id := "u1"; user_roles := Some ["admin"; "editor"] |})
  ∧ authenticateJWT (H := sampleExternals)
      (sampleRequest [("authorization", "Bearer  good")])
    = AuthRejected {| statusCode := 401; error := "Token not provided" |}.
Proof.
  split.
  - exact (proj1 (X9_token_is_second_field (H := sampleExternals)
                    (sampleRequest [("authorization", "Bearer good and more")])
                    "Bearer" "good" "and more" eq_refl eq_refl)
                 eq_refl ltac:(discriminate)).
  - exact (proj2 (X9_token_is_second_field (H := sampleExternals)
                    (sampleRequest [("authorization", "Bearer  good")])
                    "Bearer" "" "good" eq_refl eq_refl)
                 eq_refl).
Defined.


(** * Properties of the auth service *)

Section AuthService.
Import Auth.

(** ** Registration and heartbeats *)

Lemma reacts_cons (st : Registration) (sig : Signal) (sigs : list Signal) :
  reacts st (sig :: sigs)
  = ((react st sig).1 ++ (reacts (react st sig).2 sigs).1,
     (reacts (react st sig).2 sigs).2).
Proof.
  simpl. destruct (react st sig) as [es st1]. simpl.
  by destruct (reacts st1 sigs).
Qed.

Lemma reacts_app (sigs1 sigs2 : list Signal) :
  ∀ st, reacts st (sigs1 ++ sigs2)
        = ((reacts st sigs1).1 ++ (reacts (reacts st sigs1).2 sigs2).1,
           (reacts (reacts st sigs1).2 sigs2).2).
Proof.
  induction sigs1 as [|sig rest IH]; intros st.
  - simpl. by destruct (reacts st sigs2).
  - rewrite <- app_comm_cons, !reacts_cons, IH. simpl. by rewrite app_assoc.
Qed.

(** X10. Every successful registration starts one more heartbeat timer and
    nothing ever stops one: after any sequence of signals the number of
    running timers is the number it was plus the number of successful
    registrations in the sequence, and that many [setInterval] calls were
    made. *)
Theorem X10_heartbeat_timers_accumulate (st : Registration)
    (sigs : list Signal) :
  intervals (reacts st sigs).2
  = (intervals st + length (filter (λ sig, registered sig = true) sigs))%nat
  ∧ length (filter (λ e, e = StartInterval HEARTBEAT_INTERVAL) (reacts st sigs).1)
    = length (filter (λ sig, registered sig = true) sigs).
Proof.
  revert st. induction sigs as [|sig rest IH]; intros st; [done|].
  rewrite reacts_cons. simpl. destruct (IH (react st sig).2) as [IH1 IH2].
  rewrite IH1, filter_app, length_app, IH2.
  destruct sig as [|[id|]| |[|]]; simpl.
  - rewrite filter_cons_False by done. split; lia.
  - split; lia.
  - rewrite filter_cons_False by done. split; lia.
  - rewrite filter_cons_False by done.
    destruct (serviceId st) as [id|]; [|simpl; split; lia].
    case_bool_decide; simpl; split; lia.
  - rewrite filter_cons_False by done. split; lia.
  - rewrite filter_cons_False by done. split; lia.
Qed.

(** X11. A failed registration changes nothing and schedules one retry
    5000 ms later, every time: [n] attempts in a row that all fail make [n]
    posts and [n] retries with the same delay, and leave the state as it
    was. *)
Theorem X11_registration_retries (st : Registration) (n : nat) :
  reacts st (mjoin (replicate n [Start; RegisterSettled None]))
  = (mjoin (replicate n [PostRegister; RetryIn 5000]), st).
Proof.
  induction n as [|n IH]; [done|].
  simpl. simpl in IH. by rewrite IH.
Qed.

(** X12. After a failed heartbeat the service forgets its id and registers
    anew; until that registration succeeds the timers send nothing; once it
    has succeeded with a non-empty id, the next tick sends the heartbeat
    for the new id. *)
Theorem X12_heartbeat_recovery (st : Registration) (m : nat) (id : string) :
  id ≠ "" →
  reacts st ([HeartbeatSettled false] ++ replicate m Tick
             ++ [RegisterSettled (Some id); Tick])
  = ([PostRegister; StartInterval 20000; PutHeartbeat id],
     {| serviceId := Some id; intervals := S (intervals st) |}).
Proof.
  intros Hid.
  assert (Hsilent : ∀ st0, serviceId st0 = None →
            reacts st0 (replicate m Tick) = ([], st0)).
  { intros st0 Hnone. induction m as [|m IH]; [done|].
    simpl replicate. rewrite reacts_cons. simpl. rewrite Hnone. simpl.
    by rewrite IH. }
  rewrite !reacts_app. simpl (reacts st [HeartbeatSettled false]).
  rewrite Hsilent by done. simpl. by rewrite bool_decide_eq_false_2.
Qed.

Lemma X12_heartbeat_recovery_witness :
  reacts {| serviceId := Some "old"; intervals := 1 |}
    [HeartbeatSettled false; Tick; Tick; RegisterSettled (Some "new"); Tick]
  = ([PostRegister; StartInterval 20000; PutHeartbeat "new"],
     {| serviceId := Some "new"; intervals := 2 |}).
Proof.
  exact (X12_heartbeat_recovery {| serviceId := Some "old"; intervals := 1 |}
           2 "new" ltac:(discriminate)).
Defined.

(** ** Middlewares *)

Lemma includes_spec (rs : list string) (r : string) :
  includes rs r = true ↔ r ∈ rs.
Proof. unfold includes. by rewrite bool_decide_eq_true. Qed.

Lemma hasRole_next (r : string) (u : Principal) :
  hasRole r (Some u) = None
  ↔ r ∈ default [] (user_roles u) ∨ "admin" ∈ default [] (user_roles u).
Proof.
  unfold hasRole. rewrite <- !includes_spec.
  destruct (includes _ r), (includes _ "admin"); simpl; intuition discriminate.
Qed.

Lemma hasRole_denied (r : string) (u : Principal) (e : JsonError) :
  hasRole r (Some u) = Some e →
  e = {| statusCode := 403; error := "Insufficient permissions" |}.
Proof.
  unfold hasRole. destruct (_ && _); [|done]. by intros [= <-].
Qed.

(** X13. The chain [isAuthenticated, hasRole(role)]: the handler is reached
    exactly when the token verifies and the decoded roles contain the
    required role or [admin]; a verified caller without either is answered
    403, and a caller the first middleware rejects gets that rejection. *)
Theorem X13_role_gate `{Externals} (r : string) (hs : gmap string string)
    (u : Principal) :
  (guard r hs = Pass u
   ↔ isAuthenticated hs = Pass u
     ∧ (r ∈ default [] (user_roles u) ∨ "admin" ∈ default [] (user_roles u)))
  ∧ (isAuthenticated hs = Pass u →
     ¬ (r ∈ default [] (user_roles u) ∨ "admin" ∈ default [] (user_roles u)) →
     guard r hs
     = Deny {| statusCode := 403; error := "Insufficient permissions" |})
  ∧ (∀ e, isAuthenticated hs = Deny e → guard r hs = Deny e).
Proof.
  unfold guard. split; [|split].
  - destruct (isAuthenticated hs) as [e|u']; [split; [done|by intros [? _]]|].
    destruct (hasRole r (Some u')) as [e|] eqn:E.
    + split; [done|]. intros [[= ->] Hr]. apply hasRole_next in Hr. congruence.
    + apply hasRole_next in E. split; [by intros [= ->]|by intros [[= ->] _]].
  - intros -> Hr. destruct (hasRole r (Some u)) as [e|] eqn:E.
    + by rewrite (hasRole_denied _ _ _ E).
    + by apply hasRole_next in E.
  - by intros e ->.
Qed.

(** X14. [PUT /users/:id]: a caller without the [admin] role gets past the
    permission checks only for the own id and only without [roles] in the
    body, and the update then sets no roles; only an administrator's update
    can set roles, to the ones in the body. Every refusal is a 403. *)
Theorem X14_update_permissions (caller : Principal) (paramId : string)
    (body : Body) (now : Z) :
  let admin := "admin" ∈ default [] (user_roles caller) in
  (∀ d, planUpdate caller paramId body now = inr d →
        (paramId = user_id caller ∨ admin)
        ∧ (∀ rs, setRoles d = Some rs → admin ∧ bodyRoles body = Some rs)
        ∧ (¬ admin → bodyRoles body = None ∧ setRoles d = None)
        ∧ setFirstName d = bodyFirstName body
        ∧ setLastName d = bodyLastName body
        ∧ setEmail d = bodyEmail body)
  ∧ (admin → ∃ d, planUpdate caller paramId body now = inr d
                  ∧ setRoles d = bodyRoles body)
  ∧ (∀ e, planUpdate caller paramId body now = inl e → statusCode e = 403%Z).
Proof.
  intros admin. unfold planUpdate.
  destruct (includes (default [] (user_roles caller)) "admin") eqn:Ha.
  - assert admin as Hadmin by by apply includes_spec.
    rewrite !andb_false_r. simpl. rewrite andb_true_r.
    split; [|split].
    + intros d [= <-]. simpl. split; [by right|].
      split; [|split; [done|done]].
      intros rs. case_bool_decide; [done|discriminate].
    + intros _. eexists. split; [done|]. simpl.
      case_bool_decide as Hs; [done|].
      destruct (bodyRoles body); [|done]. by destruct Hs.
    + discriminate.
  - assert (¬ admin) as Hadmin.
    { intros Hin. apply includes_spec in Hin. congruence. }
    rewrite !andb_true_r, !andb_false_r. split; [|split].
    + case_bool_decide as Hid; simpl; [|discriminate].
      case_bool_decide as Hs; simpl; [discriminate|].
      intros d [= <-]. simpl. split; [by left|]. split; [discriminate|].
      split; [|done]. intros _. split; [|done].
      destruct (bodyRoles body); [|done]. by destruct Hs.
    + done.
    + intros e. case_bool_decide; simpl; [|by intros [= <-]].
      case_bool_decide; simpl; [by intros [= <-]|discriminate].
Qed.

Lemma X13_role_gate_witness :
  guard (H := sampleExternals) "editor"
    {[ "authorization" := "Bearer good" ]}
  = Pass {| user_id := "u1"; user_roles := Some ["admin"; "editor"] |}.
Proof.
  apply (proj2 (proj1 (X13_role_gate (H := sampleExternals) "editor"
    {[ "authorization" := "Bearer good" ]}
    {| user_id := "u1"; user_roles := Some ["admin"; "editor"] |}))).
  split; [done|]. left. simpl. rewrite !elem_of_cons. auto.
Defined.

Lemma X14_update_permissions_witness :
  ∃ d, planUpdate {| user_id := "u1"; user_roles := Some ["admin"] |} "u2"
         (credentials "bob" "bob@example.com" "pw") 0
       = inr d
       ∧ setRoles d = Some ["admin"].
Proof.
  apply (proj1 (proj2 (X14_update_permissions
    {| user_id := "u1"; user_roles := Some ["admin"] |} "u2"
    (credentials "bob" "bob@example.com" "pw") 0))).
  simpl. apply list_elem_of_singleton. reflexivity.
Defined.

(** ** Collections *)

Lemma findOne_Some {A} (P : A → Prop) `{∀ x, Decision (P x)} (l : list A)
    (x : A) :
  findOne P l = Some x → P x ∧ x ∈ l.
Proof.
  unfold findOne. intros Hh. apply head_Some_elem_of in Hh.
  by apply list_elem_of_filter in Hh.
Qed.

Lemma findOne_None {A} (P : A → Prop) `{∀ x, Decision (P x)} (l : list A) :
  findOne P l = None ↔ ∀ x, x ∈ l → ¬ P x.
Proof.
  unfold findOne. rewrite head_None. split.
  - intros Hf x Hx HP. by apply (filter_nil_not_elem_of _ _ x Hf HP).
  - intros Hn. induction l as [|a l IH]; [done|].
    rewrite filter_cons_False by (apply Hn; left).
    apply IH. intros x Hx. apply Hn. by right.
Qed.

Lemma findOne_unique {A} (P : A → Prop) `{∀ x, Decision (P x)} (l : list A)
    (x : A) :
  x ∈ l → P x → (∀ y, y ∈ l → P y → y = x) → findOne P l = Some x.
Proof.
  intros Hx HP Hu. destruct (findOne P l) as [y|] eqn:E.
  - apply findOne_Some in E as [HPy Hy]. f_equal. by apply Hu.
  - rewrite findOne_None in E. by destruct (E x Hx).
Qed.

Lemma falsy_false (x : option string) :
  falsy x = false ↔ ∃ s, x = Some s ∧ s ≠ "".
Proof.
  destruct x as [s|]; simpl.
  - rewrite bool_decide_eq_false. split; [eauto|]. by intros (? & [= <-] & ?).
  - split; [done|]. by intros (? & ? & _).
Qed.

Lemma falsyValue_Str (v : Value) (s : string) :
  v = Str s → falsyValue v = bool_decide (s = "").
Proof. by intros ->. Qed.

Context `{Libraries}.

(** ** Registration of users *)

Lemma createUser_Some (users : list User) (u e : Value) (hashed : string)
    (f l : Value) (inp : Inputs) (user : User) :
  createUser users u e hashed f l inp = Some user →
  castField u = Some (Some (username user))
  ∧ castField e = Some (Some (email user))
  ∧ castField f = Some (firstName user)
  ∧ castField l = Some (lastName user)
  ∧ username user ≠ "" ∧ email user ≠ ""
  ∧ _id user = newId inp ∧ password user = hashed
  ∧ roles user = ["user"] ∧ isActive user = true
  ∧ ∀ x, x ∈ users → username x ≠ username user ∧ email x ≠ email user.
Proof.
  unfold createUser.
  destruct (castField u) as [[u'|]|]; [|done..].
  destruct (castField e) as [[e'|]|]; [|done..].
  destruct (castField f) as [f'|]; [|done].
  destruct (castField l) as [l'|]; [|done].
  case_bool_decide as Hu; simpl; [done|].
  case_bool_decide as He; simpl; [done|].
  destruct (findOne _ users) as [x|] eqn:Ef; [done|].
  intros [= <-]. simpl. do 10 (split; [done|]).
  intros x Hx. rewrite findOne_None in Ef. specialize (Ef x Hx). simpl in Ef.
  split; intros Heq; apply Ef; auto.
Qed.

Lemma createUser_strings (users : list User) (u e hashed : string)
    (f l : Value) (inp : Inputs) :
  u ≠ "" → e ≠ "" →
  (∀ x, x ∈ users → username x ≠ u ∧ email x ≠ e) →
  is_Some (castField f) → is_Some (castField l) →
  ∃ user, createUser users (Str u) (Str e) hashed f l inp = Some user
          ∧ username user = u ∧ email user = e.
Proof.
  intros Hu He Hfree [f' Hf] [l' Hl]. unfold createUser. simpl.
  rewrite Hf, Hl. rewrite !bool_decide_eq_false_2 by done. simpl.
  destruct (findOne _ users) as [x|] eqn:Ef.
  - apply findOne_Some in Ef as [Hm Hx]. destruct (Hfree x Hx). tauto.
  - by eexists.
Qed.

Local Ltac refused :=
  left; split; [done|]; eexists; split; [done|]; simpl; set_solver.

Lemma register_cases (users : list User) (body : Body) (inp : Inputs) :
  ((register users body inp).2 = users
   ∧ ∃ e, (register users body inp).1 = Fail e
          ∧ statusCode e ∈ [400; 409; 500]%Z)
  ∨ (∃ user p,
       bodyPassword body = Str p
       ∧ createUser users (bodyUsername body) (bodyEmail body)
           (bcrypt_hash p (salt inp)) (bodyFirstName body)
           (bodyLastName body) inp = Some user
       ∧ register users body inp
         = (Session 201 "User registered successfully"
              (jwt_sign (payload user) (signedNow inp)) (view user),
            users ++ [user])).
Proof.
  unfold register.
  destruct (falsyValue (bodyUsername body)); simpl; [refused|].
  destruct (falsyValue (bodyEmail body)); simpl; [refused|].
  destruct (falsyValue (bodyPassword body)); simpl; [refused|].
  destruct (filterOn (bodyUsername body)) as [byName|]; [|refused].
  destruct (filterOn (bodyEmail body)) as [byEmail|]; [|refused].
  destruct (findOne _ users) as [x|]; [refused|].
  destruct (bodyPassword body) as [|p|t json]; [refused| |refused].
  destruct (createUser _ _ _ _ _ _ _) as [user|] eqn:Ec; [|refused].
  right. by exists user, p.
Qed.

(** What [POST /register] answers to a body whose name, address and
    password are strings. *)
Lemma register_strings (users : list User) (body : Body) (inp : Inputs)
    (u e p : string) :
  bodyUsername body = Str u → bodyEmail body = Str e →
  bodyPassword body = Str p →
  register users body inp
  = if bool_decide (u = "") || bool_decide (e = "") || bool_decide (p = "")
    then (fail 400 "Username, email and password are required", users)
    else
      match findOne (λ x, username x = u ∨ email x = e) users with
      | Some _ => (fail 409 "Username or email already exists", users)
      | None =>
        match createUser users (Str u) (Str e) (bcrypt_hash p (salt inp))
                (bodyFirstName body) (bodyLastName body) inp with
        | Some user =>
          (Session 201 "User registered successfully"
             (jwt_sign (payload user) (signedNow inp)) (view user),
           users ++ [user])
        | None => (internalError, users)
        end
      end.
Proof.
  intros Hu He Hp. unfold register. rewrite Hu, He, Hp. simpl.
  destruct (_ || _); [done|].
  assert (Hsame : findOne (λ x, bool_decide (username x = u) = true
                              ∨ bool_decide (email x = e) = true) users
                  = findOne (λ x, username x = u ∨ email x = e) users).
  { unfold findOne. f_equal. apply list_filter_iff. intros x.
    by rewrite !bool_decide_eq_true. }
  by rewrite Hsame.
Qed.

(** X15. [POST /register], whatever the body holds, either refuses with
    400, 409 or 500 and leaves the user collection as it was, or appends
    exactly one user: active, with the roles [["user"]] whatever the body
    asks for, with the hash of the submitted password (a string) and not
    the password, and with the submitted name and address, which no
    earlier user has. A name or address that is taken is always refused.
    For a body whose name, address and password are strings and whose
    first and last name can be stored, the answer is 400 when one of the
    three is empty, 409 when the name or the address is taken, and the
    new user otherwise. *)
Theorem X15_register_outcome (users : list User) (body : Body) (inp : Inputs) :
  let reply := (register users body inp).1 in
  let users' := (register users body inp).2 in
  ((users' = users
    ∧ ∃ e, reply = Fail e ∧ statusCode e ∈ [400; 409; 500]%Z)
   ∨ (∃ user p,
        users' = users ++ [user]
        ∧ reply = Session 201 "User registered successfully"
                    (jwt_sign (payload user) (signedNow inp)) (view user)
        ∧ _id user = newId inp
        ∧ castField (bodyUsername body) = Some (Some (username user))
        ∧ castField (bodyEmail body) = Some (Some (email user))
        ∧ roles user = ["user"] ∧ isActive user = true
        ∧ bodyPassword body = Str p
        ∧ password user = bcrypt_hash p (salt inp)
        ∧ ∀ x, x ∈ users →
               username x ≠ username user ∧ email x ≠ email user))
  ∧ ((∃ x, x ∈ users
           ∧ (castField (bodyUsername body) = Some (Some (username x))
              ∨ castField (bodyEmail body) = Some (Some (email x)))) →
     users' = users ∧ ∃ e, reply = Fail e)
  ∧ (∀ u e p,
       bodyUsername body = Str u → bodyEmail body = Str e →
       bodyPassword body = Str p →
       is_Some (castField (bodyFirstName body)) →
       is_Some (castField (bodyLastName body)) →
       (u = "" ∨ e = "" ∨ p = "" →
        reply = fail 400 "Username, email and password are required")
       ∧ (u ≠ "" → e ≠ "" → p ≠ "" →
          (∃ x, x ∈ users ∧ (username x = u ∨ email x = e)) →
          reply = fail 409 "Username or email already exists")
       ∧ (u ≠ "" → e ≠ "" → p ≠ "" →
          (∀ x, x ∈ users → username x ≠ u ∧ email x ≠ e) →
          ∃ user, users' = users ++ [user]
                  ∧ username user = u ∧ email user = e)).
Proof.
  intros reply users'. subst reply users'. split; [|split].
  - destruct (register_cases users body inp)
      as [Hrefused|(user & p & Hp & Hc & Hreg)]; [by left|].
    right. exists user, p. rewrite Hreg. simpl.
    apply createUser_Some in Hc
      as (Hu & He & _ & _ & _ & _ & Hid & Hpw & Hr & Ha & Hfree).
    done.
  - intros (x & Hx & Htaken).
    destruct (register_cases users body inp)
      as [[Hsame (e & He & _)]|(user & p & Hp & Hc & Hreg)]; [eauto|].
    apply createUser_Some in Hc
      as (Hu & He & _ & _ & _ & _ & _ & _ & _ & _ & Hfree).
    destruct (Hfree x Hx) as [Hxu Hxe].
    destruct Htaken as [Ht|Ht]; congruence.
  - intros u e p Hu He Hp Hf Hl.
    rewrite (register_strings users body inp u e p Hu He Hp).
    split; [|split].
    + intros Hempty.
      assert (bool_decide (u = "") || bool_decide (e = "")
              || bool_decide (p = "") = true) as ->; [|done].
      destruct Hempty as [-> | [-> | ->]]; simpl;
        rewrite ?orb_true_r; done.
    + intros Hune Hene Hpne (x & Hx & Htaken).
      rewrite !bool_decide_eq_false_2 by done. simpl.
      destruct (findOne _ users) as [y|] eqn:Ef; [done|].
      rewrite findOne_None in Ef. by destruct (Ef x Hx).
    + intros Hune Hene Hpne Hfree.
      rewrite !bool_decide_eq_false_2 by done. simpl.
      destruct (findOne _ users) as [y|] eqn:Ef.
      { apply findOne_Some in Ef as [Hm Hy]. destruct (Hfree y Hy). tauto. }
      destruct (createUser_strings users u e (bcrypt_hash p (salt inp))
                  (bodyFirstName body) (bodyLastName body) inp
                  Hune Hene Hfree Hf Hl) as (user & -> & Hn & Hm).
      by exists user.
Qed.

(** X16. [POST /register] keeps the user names and the addresses of the
    collection pairwise different. *)
Theorem X16_register_keeps_unique (users : list User) (body : Body)
    (inp : Inputs) :
  NoDup (username <$> users) →
  NoDup (email <$> users) →
  NoDup (username <$> (register users body inp).2)
  ∧ NoDup (email <$> (register users body inp).2).
Proof.
  intros Hun Hem.
  destruct (register_cases users body inp)
    as [[-> _]|(user & p & _ & Hc & ->)]; [done|].
  apply createUser_Some in Hc
    as (_ & _ & _ & _ & _ & _ & _ & _ & _ & _ & Hfree).
  simpl. rewrite !fmap_app. simpl. split; apply NoDup_app.
  - split; [done|]. split; [|apply NoDup_singleton].
    intros n Hn Hin. apply list_elem_of_singleton in Hin as ->.
    apply list_elem_of_fmap in Hn as (x & Hx & Hin).
    destruct (Hfree x Hin). congruence.
  - split; [done|]. split; [|apply NoDup_singleton].
    intros n Hn Hin. apply list_elem_of_singleton in Hin as ->.
    apply list_elem_of_fmap in Hn as (x & Hx & Hin).
    destruct (Hfree x Hin). congruence.
Qed.

(** ** Login *)

Lemma login_found (users : list User) (body : Body) (now : Z)
    (u p : string) (user : User) :
  bodyUsername body = Str u → bodyPassword body = Str p →
  u ≠ "" → p ≠ "" →
  user ∈ users →
  (username user = u ∨ email user = u) → isActive user = true →
  (∀ y, y ∈ users → (username y = u ∨ email y = u) → isActive y = true →
        y = user) →
  login users body now
  = if bcrypt_compare p (password user)
    then Session 200 "Login successful" (jwt_sign (payload user) now)
           (view user)
    else fail 401 "Invalid credentials".
Proof.
  intros Hu Hp Hune Hpne Hin Hmatch Hactive Huniq. unfold login.
  rewrite Hu, Hp. simpl. rewrite !bool_decide_eq_false_2 by done. simpl.
  rewrite (findOne_unique _ users user); [done|done| |].
  - rewrite !bool_decide_eq_true. done.
  - intros y Hy [Hm Ha]. rewrite !bool_decide_eq_true in Hm. by apply Huniq.
Qed.

(** X17. Registering and then logging in: when the name and the address
    are free, and no active user has the new name as address, the user
    that [POST /register] creates can log in with the same name and
    password (given that [bcrypt.compare] accepts a password against its
    own hash) and gets a session for the new id with the roles
    [["user"]]. *)
Theorem X17_register_then_login (users : list User) (body login_body : Body)
    (inp : Inputs) (now : Z) (u e p : string) :
  bodyUsername body = Str u → bodyEmail body = Str e →
  bodyPassword body = Str p →
  is_Some (castField (bodyFirstName body)) →
  is_Some (castField (bodyLastName body)) →
  u ≠ "" → e ≠ "" → p ≠ "" →
  (∀ x, x ∈ users → username x ≠ u ∧ email x ≠ e) →
  (∀ x, x ∈ users → isActive x = true → email x ≠ u) →
  bcrypt_compare p (bcrypt_hash p (salt inp)) = true →
  bodyUsername login_body = Str u → bodyPassword login_body = Str p →
  ∃ token v,
    login (register users body inp).2 login_body now
    = Session 200 "Login successful" token v
    ∧ viewId v = newId inp ∧ viewUsername v = u ∧ viewRoles v = ["user"].
Proof.
  intros Hu He Hp Hf Hl Hune Hene Hpne Hfree Hcross Hlaw Hlu Hlp.
  rewrite (register_strings users body inp u e p Hu He Hp).
  rewrite !bool_decide_eq_false_2 by done. simpl.
  destruct (findOne _ users) as [y|] eqn:Ef.
  { apply findOne_Some in Ef as [Hm Hy]. destruct (Hfree y Hy). tauto. }
  destruct (createUser_strings users u e (bcrypt_hash p (salt inp))
              (bodyFirstName body) (bodyLastName body) inp
              Hune Hene Hfree Hf Hl) as (user & Hc & Hn & Hm).
  rewrite Hc. simpl.
  apply createUser_Some in Hc
    as (_ & _ & _ & _ & _ & _ & Hid & Hpw & Hr & Ha & _).
  rewrite (login_found _ login_body now u p user Hlu Hlp Hune Hpne).
  - rewrite Hpw, Hlaw. eexists _, _. split; [done|]. simpl. by rewrite Hr.
  - apply elem_of_app. right. by apply list_elem_of_singleton.
  - by left.
  - done.
  - intros y Hy Hmatch Hact. apply elem_of_app in Hy as [Hy|Hy].
    + destruct (Hfree y Hy) as [Hny _]. specialize (Hcross y Hy Hact). tauto.
    + by apply list_elem_of_singleton in Hy.
Qed.

(** X18. [POST /login] opens a session only for an active user that the
    submitted name selects, which for a name that is a string is a user
    whose name or address is that string, and only when the submitted
    password is a string that matches the stored hash. For a name and a
    password that are strings, an unknown name, an inactive account and a
    wrong password are all answered with the same 401
    [Invalid credentials]. *)
Theorem X18_login_sound (users : list User) (body : Body) (now : Z) :
  (∀ s m t v, login users body now = Session s m t v →
     ∃ p byName user,
       bodyPassword body = Str p
       ∧ filterOn (bodyUsername body) = Some byName
       ∧ user ∈ users ∧ isActive user = true
       ∧ (byName (username user) = true ∨ byName (email user) = true)
       ∧ (∀ u, bodyUsername body = Str u →
               username user = u ∨ email user = u)
       ∧ bcrypt_compare p (password user) = true
       ∧ s = 200%Z ∧ t = jwt_sign (payload user) now ∧ v = view user)
  ∧ (∀ u p, bodyUsername body = Str u → bodyPassword body = Str p →
       u ≠ "" → p ≠ "" →
       (∀ x, x ∈ users → (username x = u ∨ email x = u) →
             isActive x = true → bcrypt_compare p (password x) = false) →
       login users body now = fail 401 "Invalid credentials").
Proof.
  unfold login. split.
  - intros s m t v.
    destruct (falsyValue (bodyUsername body)); simpl; [discriminate|].
    destruct (falsyValue (bodyPassword body)); simpl; [discriminate|].
    destruct (filterOn (bodyUsername body)) as [byName|] eqn:Eb;
      [|discriminate].
    destruct (findOne _ users) as [user|] eqn:Ef; [|discriminate].
    apply findOne_Some in Ef as [[Hm Ha] Hin].
    destruct (bodyPassword body) as [|p|tr json]; [discriminate| |discriminate].
    destruct (bcrypt_compare p (password user)) eqn:Ec; [|discriminate].
    intros [= <- <- <- <-]. exists p, byName, user.
    do 5 (split; [done|]). split; [|done].
    intros u Hu. rewrite Hu in Eb. injection Eb as <-.
    by rewrite !bool_decide_eq_true in Hm.
  - intros u p -> -> Hu Hp Hno. simpl.
    rewrite !bool_decide_eq_false_2 by done. simpl.
    destruct (findOne _ users) as [user|] eqn:Ef; [|done].
    apply findOne_Some in Ef as [[Hm Ha] Hin].
    rewrite !bool_decide_eq_true in Hm. by rewrite (Hno user Hin Hm Ha).
Qed.

(** ** Change of password *)

Lemma same_id (users : list User) (x y : User) :
  NoDup (_id <$> users) → x ∈ users → y ∈ users → _id x = _id y → x = y.
Proof.
  induction users as [|a l IH]; intros Hnd Hx Hy Heq; [by inversion Hx|].
  rewrite fmap_cons in Hnd. apply NoDup_cons in Hnd as [Ha Hnd].
  apply elem_of_cons in Hx as [->|Hx]; apply elem_of_cons in Hy as [->|Hy].
  - done.
  - destruct Ha. rewrite Heq. by apply list_elem_of_fmap_2.
  - destruct Ha. rewrite <- Heq. by apply list_elem_of_fmap_2.
  - by apply IH.
Qed.

(** The caller's document with the new hash, every other document as it is. *)
Lemma changePassword_success (users : list User) (caller : Principal)
    (body : Body) (inp : Inputs) (cur new : string) (user : User) :
  NoDup (_id <$> users) →
  bodyCurrentPassword body = Str cur → bodyNewPassword body = Str new →
  cur ≠ "" → new ≠ "" →
  castObjectId (user_id caller) = true →
  user ∈ users → _id user = user_id caller →
  changePassword users caller body inp
  = if bcrypt_compare cur (password user)
    then (Message 200 "Password changed successfully",
          (λ x, if bool_decide (_id x = user_id caller)
                then setPassword x (bcrypt_hash new (salt inp)) (updatedNow inp)
                else x) <$> users)
    else (fail 401 "Current password is incorrect", users).
Proof.
  intros Hnd Hc Hn Hcne Hnne Hcast Hin Hid. unfold changePassword.
  rewrite Hc, Hn, Hcast. simpl. rewrite !bool_decide_eq_false_2 by done. simpl.
  rewrite (findOne_unique _ users user); [|done..|].
  - destruct (bcrypt_compare cur (password user)); [|done].
    f_equal. unfold save. apply list_fmap_ext. intros i x Hx.
    change (_id (setPassword user _ _)) with (_id user). rewrite Hid.
    case_bool_decide as Hx'; [|done].
    replace x with user; [done|].
    apply (same_id users); [done..| |congruence].
    by eapply list_elem_of_lookup_2.
  - intros y Hy Hy'. apply (same_id users); [done..|congruence].
Qed.

(** X19. [POST /change-password] on a collection with pairwise different
    ids: either the request is refused (400, 500, 404 or 401) and the
    collection stays as it was, or the current password matched the stored
    hash and exactly the caller's document changes, in its password hash
    and [updatedAt] only; every other document, and the order, is kept. *)
Theorem X19_change_password (users : list User) (caller : Principal)
    (body : Body) (inp : Inputs) :
  NoDup (_id <$> users) →
  let reply := (changePassword users caller body inp).1 in
  let users' := (changePassword users caller body inp).2 in
  (users' = users
   ∧ ∃ e, reply = Fail e ∧ statusCode e ∈ [400; 500; 404; 401]%Z)
  ∨ (∃ cur new user,
       bodyCurrentPassword body = Str cur ∧ bodyNewPassword body = Str new
       ∧ user ∈ users ∧ _id user = user_id caller
       ∧ bcrypt_compare cur (password user) = true
       ∧ reply = Message 200 "Password changed successfully"
       ∧ users'
         = (λ x, if bool_decide (_id x = user_id caller)
                 then {| _id := _id x; username := username x; email := email x;
                         password := bcrypt_hash new (salt inp);
                         firstName := firstName x; lastName := lastName x;
                         roles := roles x; isActive := isActive x;
                         createdAt := createdAt x;
                         updatedAt := updatedNow inp |}
                 else x) <$> users).
Proof.
  intros Hnd reply users'. subst reply users'.
  destruct (falsyValue (bodyCurrentPassword body)) eqn:Ec.
  { unfold changePassword. rewrite Ec. simpl. refused. }
  destruct (falsyValue (bodyNewPassword body)) eqn:En.
  { unfold changePassword. rewrite Ec, En. simpl. refused. }
  destruct (castObjectId (user_id caller)) eqn:Ecast.
  2:{ unfold changePassword. rewrite Ec, En, Ecast. simpl. refused. }
  destruct (findOne (λ x, _id x = user_id caller) users) as [user|] eqn:Ef.
  2:{ unfold changePassword. rewrite Ec, En, Ecast, Ef. simpl. refused. }
  destruct (bodyCurrentPassword body) as [|cur|tc jc] eqn:Hc.
  1,3: unfold changePassword; rewrite Hc, En, Ecast, Ef; simpl in *;
       rewrite ?Ec; simpl; refused.
  destruct (bodyNewPassword body) as [|new|tn jn] eqn:Hn.
  1,3: unfold changePassword; rewrite Hc, Hn, Ecast, Ef; simpl in *;
       rewrite ?Ec, ?En; simpl;
       destruct (bcrypt_compare cur (password user)); refused.
  apply findOne_Some in Ef as [Hid Hin]. simpl in Ec, En.
  apply bool_decide_eq_false in Ec, En.
  rewrite (changePassword_success users caller body inp cur new user
             Hnd Hc Hn Ec En Ecast Hin Hid).
  destruct (bcrypt_compare cur (password user)) eqn:Ecmp; simpl.
  - right. exists cur, new, user. done.
  - refused.
Qed.

(** X20. After a change of password on a collection with pairwise
    different ids, for an active user whose name identifies no other active
    user: the new password logs in (given that [bcrypt.compare] accepts it
    against its hash), and the old one is answered 401 (given that
    [bcrypt.compare] rejects it against the new hash). *)
Theorem X20_change_then_login (users : list User) (caller : Principal)
    (body : Body) (inp : Inputs) (now : Z) (cur new : string) (user : User) :
  NoDup (_id <$> users) →
  bodyCurrentPassword body = Str cur → bodyNewPassword body = Str new →
  cur ≠ "" → new ≠ "" →
  castObjectId (user_id caller) = true →
  user ∈ users → _id user = user_id caller →
  isActive user = true → username user ≠ "" →
  bcrypt_compare cur (password user) = true →
  (∀ y, y ∈ users →
        (username y = username user ∨ email y = username user) →
        isActive y = true → y = user) →
  let users' := (changePassword users caller body inp).2 in
  (bcrypt_compare new (bcrypt_hash new (salt inp)) = true →
   ∀ b, bodyUsername b = Str (username user) → bodyPassword b = Str new →
        ∃ token v, login users' b now = Session 200 "Login successful" token v
                   ∧ viewId v = _id user ∧ viewRoles v = roles user)
  ∧ (bcrypt_compare cur (bcrypt_hash new (salt inp)) = false →
     ∀ b, bodyUsername b = Str (username user) → bodyPassword b = Str cur →
          login users' b now = fail 401 "Invalid credentials").
Proof.
  intros Hnd Hc Hn Hcne Hnne Hcast Hin Hid Hact Hune Hcmp Huniq users'.
  subst users'.
  rewrite (changePassword_success users caller body inp cur new user) by done.
  rewrite Hcmp. simpl.
  set (f := λ x : User, if bool_decide (_id x = user_id caller)
              then setPassword x (bcrypt_hash new (salt inp)) (updatedNow inp)
              else x).
  assert (Hf : ∀ x, username (f x) = username x ∧ email (f x) = email x
                    ∧ isActive (f x) = isActive x).
  { intros x. unfold f. by case_bool_decide. }
  assert (Hfu : f user
                = setPassword user (bcrypt_hash new (salt inp)) (updatedNow inp)).
  { unfold f. by rewrite bool_decide_eq_true_2. }
  assert (Hlogin : ∀ b p, bodyUsername b = Str (username user) →
            bodyPassword b = Str p → p ≠ "" →
            login (f <$> users) b now
            = if bcrypt_compare p (bcrypt_hash new (salt inp))
              then Session 200 "Login successful"
                     (jwt_sign (payload (f user)) now) (view (f user))
              else fail 401 "Invalid credentials").
  { intros b p Hbu Hbp Hpne.
    rewrite (login_found _ b now (username user) p (f user) Hbu Hbp Hune Hpne).
    - by rewrite Hfu.
    - by apply list_elem_of_fmap_2.
    - left. apply Hf.
    - by rewrite (proj2 (proj2 (Hf user))).
    - intros y Hy Hm Ha. apply list_elem_of_fmap in Hy as (x & -> & Hx).
      destruct (Hf x) as (Hx1 & Hx2 & Hx3). rewrite Hx1, Hx2 in Hm.
      rewrite Hx3 in Ha. by rewrite (Huniq x Hx Hm Ha). }
  split.
  - intros Hlaw b Hbu Hbp. rewrite (Hlogin b new Hbu Hbp Hnne), Hlaw.
    eexists _, _. split; [done|]. by rewrite Hfu.
  - intros Hold b Hbu Hbp. by rewrite (Hlogin b cur Hbu Hbp Hcne), Hold.
Qed.

(** ** Start-up data *)

Lemma ensureRole_present (stored : list Role) (r : Role) :
  (∃ x, x ∈ stored ∧ roleName x = roleName r) → ensureRole stored r = stored.
Proof.
  intros (x & Hx & Hn). unfold ensureRole.
  destruct (findOne _ stored) as [y|] eqn:E; [done|].
  rewrite findOne_None in E. by destruct (E x Hx).
Qed.

Lemma ensureRole_cases (stored : list Role) (r : Role) :
  (ensureRole stored r = stored ∧ ∃ x, x ∈ stored ∧ roleName x = roleName r)
  ∨ (ensureRole stored r = stored ++ [r]
     ∧ ∀ x, x ∈ stored → roleName x ≠ roleName r).
Proof.
  unfold ensureRole. destruct (findOne _ stored) as [y|] eqn:E.
  - left. apply findOne_Some in E as [Hn Hy]. eauto.
  - right. split; [done|]. by rewrite findOne_None in E.
Qed.

Lemma ensureRoles_grow (rs : list Role) :
  ∀ stored, ∃ added,
    foldl ensureRole stored rs = stored ++ added
    ∧ (∀ r, r ∈ added →
            r ∈ rs ∧ ∀ x, x ∈ stored → roleName x ≠ roleName r)
    ∧ (∀ r, r ∈ rs →
            ∃ x, x ∈ foldl ensureRole stored rs ∧ roleName x = roleName r).
Proof.
  induction rs as [|r rs IH]; intros stored; simpl.
  - exists []. rewrite app_nil_r. split; [done|]. split; intros r Hr; inversion Hr.
  - destruct (IH (ensureRole stored r)) as (added & Heq & Hadded & Hall).
    destruct (ensureRole_cases stored r) as [[Hsame Hex]|[Hnew Hfresh]].
    + rewrite Hsame in *. exists added. split; [done|]. split.
      * intros r' Hr'. destruct (Hadded r' Hr') as [Hin Hf]. split; [by right|done].
      * intros r' Hr'. apply elem_of_cons in Hr' as [->|Hr']; [|by apply Hall].
        destruct Hex as (x & Hx & Hn). exists x. split; [|done].
        rewrite Heq. apply elem_of_app. by left.
    + rewrite Hnew in *. exists (r :: added). split.
      * by rewrite Heq, <- app_assoc.
      * split.
        -- intros r' Hr'. apply elem_of_cons in Hr' as [->|Hr'].
           ++ split; [by left|done].
           ++ destruct (Hadded r' Hr') as [Hin Hf]. split; [by right|].
              intros x Hx. apply Hf. apply elem_of_app. by left.
        -- intros r' Hr'. apply elem_of_cons in Hr' as [->|Hr']; [|by apply Hall].
           exists r. split; [|done]. rewrite Heq, <- app_assoc.
           apply elem_of_app. right. by left.
Qed.

Lemma ensureRoles_settled (rs : list Role) (stored : list Role) :
  (∀ r, r ∈ rs → ∃ x, x ∈ stored ∧ roleName x = roleName r) →
  foldl ensureRole stored rs = stored.
Proof.
  induction rs as [|r rs IH]; intros Hall; simpl; [done|].
  rewrite ensureRole_present by (apply Hall; by left).
  apply IH. intros r' Hr'. apply Hall. by right.
Qed.

(** X21. [initializeRoles] only adds: the stored roles stay as they are, in
    place, and a role is added only under one of the three default names
    and only when no stored role has that name (so a stored [admin] role
    keeps the permissions it has). Afterwards each of the three names is
    present, and running it again, at any time, changes nothing. *)
Theorem X21_initialize_roles (stored : list Role) (t1 t2 t3 : Stamp) :
  let after := initializeRoles stored t1 t2 t3 in
  (∃ added,
     after = stored ++ added
     ∧ ∀ r, r ∈ added →
            roleName r ∈ ["admin"; "editor"; "user"]
            ∧ ∀ x, x ∈ stored → roleName x ≠ roleName r)
  ∧ (∀ n, n ∈ ["admin"; "editor"; "user"] →
          ∃ r, r ∈ after ∧ roleName r = n)
  ∧ (∀ s1 s2 s3, initializeRoles after s1 s2 s3 = after).
Proof.
  intros after. subst after. unfold initializeRoles.
  set (rs := defaultRoles t1 t2 t3).
  assert (Hrs : ∀ s1 s2 s3 r, r ∈ defaultRoles s1 s2 s3 →
            roleName r ∈ ["admin"; "editor"; "user"]).
  { intros s1 s2 s3 r Hr. apply (list_elem_of_fmap_2 roleName) in Hr. done. }
  destruct (ensureRoles_grow rs stored) as (added & Heq & Hadded & Hall).
  assert (Hnames : ∀ n, n ∈ ["admin"; "editor"; "user"] →
            ∃ r, r ∈ foldl ensureRole stored rs ∧ roleName r = n).
  { intros n Hn.
    change ["admin"; "editor"; "user"] with (roleName <$> rs) in Hn.
    apply list_elem_of_fmap in Hn as (r & -> & Hr). by apply Hall. }
  split; [|split; [done|]].
  - exists added. split; [done|]. intros r Hr. destruct (Hadded r Hr) as [Hin Hf].
    split; [|done]. by apply (Hrs t1 t2 t3).
  - intros s1 s2 s3. apply ensureRoles_settled. intros r Hr.
    by apply Hnames, (Hrs s1 s2 s3).
Qed.

Lemma initializeAdminUser_cases (users : list User) (inp : Inputs) :
  (initializeAdminUser users inp = users
   ∧ ∃ x, x ∈ users
          ∧ (username x = "admin" ∨ email x = "admin@example.com"))
  ∨ (initializeAdminUser users inp
     = users ++
       [ {| _id := newId inp; username := "admin";
            email := "admin@example.com";
            password := bcrypt_hash "adminpassword" (salt inp);
            firstName := Some "Admin"; lastName := Some "User";
            roles := ["admin"]; isActive := true;
            createdAt := createdNow inp; updatedAt := updatedNow inp |} ]
     ∧ ∀ x, x ∈ users →
            username x ≠ "admin" ∧ email x ≠ "admin@example.com").
Proof.
  unfold initializeAdminUser.
  destruct (findOne (λ x, username x = "admin") users) as [a|] eqn:Ea.
  { left. apply findOne_Some in Ea as [Hn Ha]. eauto. }
  destruct (findOne (λ x, email x = "admin@example.com") users) as [m|] eqn:Em.
  { left. apply findOne_Some in Em as [Hm Hin]. eauto. }
  right. split; [done|]. intros x Hx. rewrite findOne_None in Ea, Em.
  split; [by apply Ea|by apply Em].
Qed.

(** X22. [initializeAdminUser] never touches a stored user and is without
    effect once a user named [admin] exists, so running it again changes
    nothing. On a collection where neither the name [admin] nor its address
    is taken it adds an active user with role [admin] whose password is
    [adminpassword]: that name and password then log in (given that
    [bcrypt.compare] accepts a password against its own hash and no active
    user has [admin] as address). *)
Theorem X22_default_admin (users : list User) (inp inp' : Inputs) :
  let after := initializeAdminUser users inp in
  (∃ added, after = users ++ added)
  ∧ ((∃ x, x ∈ users ∧ username x = "admin") → after = users)
  ∧ initializeAdminUser after inp' = after
  ∧ ((∀ x, x ∈ users →
           username x ≠ "admin" ∧ email x ≠ "admin@example.com") →
     (∀ x, x ∈ users → isActive x = true → email x ≠ "admin") →
     bcrypt_compare "adminpassword" (bcrypt_hash "adminpassword" (salt inp))
       = true →
     ∀ b now,
       bodyUsername b = Str "admin" → bodyPassword b = Str "adminpassword" →
       ∃ token v,
         login after b now = Session 200 "Login successful" token v
         ∧ viewId v = newId inp ∧ viewRoles v = ["admin"]).
Proof.
  intros after. subst after.
  destruct (initializeAdminUser_cases users inp)
    as [[Hsame (x & Hx & Htaken)]|[Hnew Hfree]].
  - rewrite Hsame. split; [exists []; by rewrite app_nil_r|].
    split; [done|]. split.
    + destruct (initializeAdminUser_cases users inp') as [[-> _]|[_ Hfree']];
        [done|].
      destruct (Hfree' x Hx). tauto.
    + intros Hfree. destruct (Hfree x Hx). tauto.
  - rewrite Hnew. set (admin := {| _id := newId inp; username := "admin" |}).
    split; [by eexists|].
    split; [intros (x & Hx & Hn); by destruct (Hfree x Hx)|]. split.
    + destruct (initializeAdminUser_cases (users ++ [admin]) inp')
        as [[-> _]|[_ Hfree']]; [done|].
      destruct (Hfree' admin) as [Hn _]; [|done].
      apply elem_of_app. right. by left.
    + intros _ Hcross Hlaw b now Hbu Hbp.
      rewrite (login_found _ b now "admin" "adminpassword" admin Hbu Hbp);
        [|done|done| |by left|done|].
      * simpl. rewrite Hlaw. by eexists _, _.
      * apply elem_of_app. right. by left.
      * intros y Hy Hm Ha. apply elem_of_app in Hy as [Hy|Hy].
        -- destruct (Hfree y Hy) as [Hn _]. specialize (Hcross y Hy Ha). tauto.
        -- by apply list_elem_of_singleton in Hy.
Qed.

End AuthService.

(** ** Instances on sample data *)

(** The only member of a one-element list. *)
Local Ltac the_only x :=
  let Hx := fresh in
  intros x Hx; apply list_elem_of_singleton in Hx as ->.

(** A second registration under a taken name is refused. *)
Lemma X15_register_outcome_witness :
  (Auth.register (H := Auth.sampleLibraries) [Auth.alice]
     (Auth.credentials "alice" "other@example.com" "pw")
     (Auth.sampleInputs "u2")).1
  = Auth.fail 409 "Username or email already exists".
Proof.
  refine (proj1 (proj2 (proj2 (proj2 (X15_register_outcome
    (H := Auth.sampleLibraries) [Auth.alice]
    (Auth.credentials "alice" "other@example.com" "pw")
    (Auth.sampleInputs "u2"))) "alice" "other@example.com" "pw"
    eq_refl eq_refl eq_refl _ _))
    ltac:(discriminate) ltac:(discriminate) ltac:(discriminate) _).
  - by eexists.
  - by eexists.
  - exists Auth.alice. split; [by left|by left].
Defined.

(** A password that is a number ends in the [catch] block. *)
Example register_with_a_number_as_password :
  (Auth.register (H := Auth.sampleLibraries) [Auth.alice]
     {| Auth.bodyUsername := Auth.Str "bob";
        Auth.bodyEmail := Auth.Str "bob@example.com";
        Auth.bodyPassword := Auth.NonString true "12345";
        Auth.bodyFirstName := Auth.Undefined;
        Auth.bodyLastName := Auth.Undefined; Auth.bodyRoles := None;
        Auth.bodyCurrentPassword := Auth.Undefined;
        Auth.bodyNewPassword := Auth.Undefined |}
     (Auth.sampleInputs "u2"))
  = (Auth.fail 500 "Internal server error", [Auth.alice]).
Proof. by vm_compute. Qed.

(** A name that is an object of query operators selects a user of another
    name. *)
Example login_with_an_operator_as_name :
  Auth.login (H := Auth.sampleLibraries) [Auth.alice]
    (Auth.operatorLogin "wonderland") 1700000005000
  = Auth.Session 200 "Login successful" "u1" (Auth.view Auth.alice).
Proof. by vm_compute. Qed.

Lemma X16_register_keeps_unique_witness :
  NoDup (Auth.username <$>
           (Auth.register (H := Auth.sampleLibraries) [Auth.alice]
              (Auth.credentials "bob" "bob@example.com" "builder")
              (Auth.sampleInputs "u2")).2).
Proof.
  exact (proj1 (X16_register_keeps_unique (H := Auth.sampleLibraries)
    [Auth.alice] (Auth.credentials "bob" "bob@example.com" "builder")
    (Auth.sampleInputs "u2") (NoDup_singleton _) (NoDup_singleton _))).
Defined.

Lemma X17_register_then_login_witness :
  ∃ token v,
    Auth.login (H := Auth.sampleLibraries)
      (Auth.register (H := Auth.sampleLibraries) [Auth.alice]
         (Auth.credentials "bob" "bob@example.com" "builder")
         (Auth.sampleInputs "u2")).2
      (Auth.loginBody "bob" "builder") 1700000005000
    = Auth.Session 200 "Login successful" token v
    ∧ Auth.viewId v = "u2" ∧ Auth.viewUsername v = "bob"
    ∧ Auth.viewRoles v = ["user"].
Proof.
  refine (X17_register_then_login (H := Auth.sampleLibraries) [Auth.alice]
    (Auth.credentials "bob" "bob@example.com" "builder")
    (Auth.loginBody "bob" "builder") (Auth.sampleInputs "u2") 1700000005000
    "bob" "bob@example.com" "builder" eq_refl eq_refl eq_refl _ _
    ltac:(discriminate) ltac:(discriminate) ltac:(discriminate)
    _ _ eq_refl eq_refl eq_refl).
  - by eexists.
  - by eexists.
  - the_only x. split; discriminate.
  - the_only x. discriminate.
Defined.

Lemma X18_login_sound_witness :
  Auth.login (H := Auth.sampleLibraries) [Auth.alice]
    (Auth.loginBody "alice" "rabbit") 1700000005000
  = Auth.fail 401 "Invalid credentials".
Proof.
  refine (proj2 (X18_login_sound (H := Auth.sampleLibraries) [Auth.alice]
    (Auth.loginBody "alice" "rabbit") 1700000005000)
    "alice" "rabbit" eq_refl eq_refl ltac:(discriminate) ltac:(discriminate) _).
  the_only x. reflexivity.
Defined.

Lemma X19_change_password_witness :
  (Auth.changePassword (H := Auth.sampleLibraries) [Auth.alice]
     {| user_id := "u1"; user_roles := Some ["user"] |}
     (Auth.passwords "rabbit" "looking-glass") (Auth.sampleInputs "")).2
  = [Auth.alice].
Proof.
  destruct (X19_change_password (H := Auth.sampleLibraries) [Auth.alice]
    {| user_id := "u1"; user_roles := Some ["user"] |}
    (Auth.passwords "rabbit" "looking-glass") (Auth.sampleInputs "")
    (NoDup_singleton _)) as [[Hsame _]|(cur & new & user & _ & _ & _ & _ & _ & Hr & _)].
  - exact Hsame.
  - discriminate Hr.
Defined.

Lemma X20_change_then_login_witness :
  ∃ token v,
    Auth.login (H := Auth.sampleLibraries)
      (Auth.changePassword (H := Auth.sampleLibraries) [Auth.alice]
         {| user_id := "u1"; user_roles := Some ["user"] |}
         (Auth.passwords "wonderland" "looking-glass")
         (Auth.sampleInputs "")).2
      (Auth.loginBody "alice" "looking-glass") 1700000005000
    = Auth.Session 200 "Login successful" token v
    ∧ Auth.viewId v = "u1" ∧ Auth.viewRoles v = ["user"].
Proof.
  refine (proj1 (X20_change_then_login (H := Auth.sampleLibraries) [Auth.alice]
    {| user_id := "u1"; user_roles := Some ["user"] |}
    (Auth.passwords "wonderland" "looking-glass") (Auth.sampleInputs "")
    1700000005000 "wonderland" "looking-glass" Auth.alice
    (NoDup_singleton _) eq_refl eq_refl ltac:(discriminate) ltac:(discriminate)
    eq_refl ltac:(by left) eq_refl eq_refl ltac:(discriminate) eq_refl _)
    eq_refl (Auth.loginBody "alice" "looking-glass") eq_refl eq_refl).
  the_only x. reflexivity.
Defined.

Lemma X21_initialize_roles_witness :
  ∃ r, r ∈ Auth.initializeRoles
             [Auth.role "admin" ["content:read"] "in-house" (0, 0)%Z]
             (1, 1)%Z (2, 2)%Z (3, 3)%Z
       ∧ Auth.roleName r = "editor".
Proof.
  refine (proj1 (proj2 (X21_initialize_roles
    [Auth.role "admin" ["content:read"] "in-house" (0, 0)%Z]
    (1, 1)%Z (2, 2)%Z (3, 3)%Z)) "editor" _).
  rewrite !elem_of_cons. auto.
Defined.

(** On an empty collection the default administrator can log in. *)
Lemma X22_default_admin_witness :
  ∃ token v,
    Auth.login (H := Auth.sampleLibraries)
      (Auth.initializeAdminUser (H := Auth.sampleLibraries) []
         (Auth.sampleInputs "a1"))
      (Auth.loginBody "admin" "adminpassword") 1700000005000
    = Auth.Session 200 "Login successful" token v
    ∧ Auth.viewId v = "a1" ∧ Auth.viewRoles v = ["admin"].
Proof.
  refine (proj2 (proj2 (proj2 (X22_default_admin (H := Auth.sampleLibraries)
    [] (Auth.sampleInputs "a1") (Auth.sampleInputs "a2")))) _ _ eq_refl
    (Auth.loginBody "admin" "adminpassword") 1700000005000%Z eq_refl eq_refl).
  - intros x Hx. inversion Hx.
  - intros x Hx. inversion Hx.
Defined.

End Gateway.
